(** * A shallow embedding of jsonParser.go

    The Go program is a hand-written JSON reader: a lexer
    ([readNextToken], [skipWhitespaces]) that owns a [bytes.Buffer] cursor and
    a recursive-descent parser ([parseValue], [parseObject], [parseArray])
    that mutates the single field [currentToken].

    The embedding keeps that shape.  The parser struct is a record that is
    threaded through every call; a Go panic is an outcome of its own, and the
    struct as it stood when the panic was raised is still returned, since
    every mutation made before the panic has happened.  Loops that consume
    the buffer are bounded by the number of unread bytes; the mutually
    recursive parser, which does not terminate on every input, takes fuel. *)

From Stdlib Require Import ZArith Lia Ascii String DecimalString.
From stdpp Require Import base list strings gmap.

Local Open Scope Z_scope.

(** ** Bytes and Go strings *)

Abbreviation byte := ascii.

(** [string(bs)]: a Go string built from a byte slice. *)
Definition gostring (bs : list byte) : string := string_of_list_ascii bs.

(** [[]byte(s)]: the bytes of a string literal. *)
Definition bytes (s : string) : list byte := list_ascii_of_string s.

(** The runtime panics that the program can raise. *)
Inductive panicValue :=
| SliceBoundsOutOfRange            (* runtime error: slice bounds out of range *)
| IndexOutOfRange                  (* runtime error: index out of range *)
| PanicString (msg : string).      (* panic("...") *)

(** [s[lo:hi]] on a Go string: defined when [0 <= lo <= hi <= len(s)],
    a runtime panic otherwise. *)
Definition slice (s : list byte) (lo hi : Z) : option (list byte) :=
  if (0 <=? lo) && (lo <=? hi) && (hi <=? Z.of_nat (length s))
  then Some (take (Z.to_nat (hi - lo)) (drop (Z.to_nat lo) s))
  else None.

(** ** bytes.Buffer

    The fields of Go's [bytes.Buffer] that the program observes: the
    contents, the read offset and whether the last operation was a read (which
    is what [UnreadByte] tests). *)
Module Buffer.

Inductive readOp := opInvalid | opRead.

Record t := mk { buf : list byte; off : nat; lastRead : readOp }.

(** [bytes.NewBuffer(input)] *)
Definition NewBuffer (input : list byte) : t :=
  {| buf := input; off := 0; lastRead := opInvalid |}.

(** [b.String()]: the unread portion. *)
Definition String (b : t) : list byte := drop (off b) (buf b).

(** [b.Len()] *)
Definition Len (b : t) : Z := Z.of_nat (length (buf b) - off b).

(** [b.Next(n)]: the next [n] bytes (fewer if fewer are unread), advancing
    the offset past them. *)
Definition Next (n : Z) (b : t) : list byte * t :=
  let m := Len b in
  let n := if m <? n then m else n in
  let data := take (Z.to_nat n) (drop (off b) (buf b)) in
  (data, {| buf := buf b;
            off := (off b + Z.to_nat n)%nat;
            lastRead := if 0 <? n then opRead else opInvalid |}).

(** [b.UnreadByte()]: steps back one byte when the last operation was a
    successful read; otherwise it returns an error, which the program
    drops. *)
Definition UnreadByte (b : t) : t :=
  match lastRead b with
  | opInvalid => b
  | opRead =>
      {| buf := buf b;
         off := if (0 <? off b)%nat then (off b - 1)%nat else off b;
         lastRead := opInvalid |}
  end.

End Buffer.

(** ** The parser struct and the monad of its methods *)

Record JSONParser := mkParser {
  input : Buffer.t;
  currentToken : string
}.

(** [NewJSONParser(input)] *)
Definition NewJSONParser (bs : list byte) : JSONParser :=
  {| input := Buffer.NewBuffer bs; currentToken := EmptyString |}.

Inductive result (A : Type) :=
| Return (a : A)
| Panic (e : panicValue)
| OutOfFuel.
Arguments Return {A} a.
Arguments Panic {A} e.
Arguments OutOfFuel {A}.

(** A method of [*JSONParser]: it returns, panics, or is still running when
    the fuel is spent, and leaves the struct in some state in each case. *)
Definition Parse (A : Type) : Type := JSONParser -> result A * JSONParser.

Definition ret {A} (a : A) : Parse A := fun p => (Return a, p).

Definition bind {A B} (m : Parse A) (k : A -> Parse B) : Parse B :=
  fun p =>
    match m p with
    | (Return a, p') => k a p'
    | (Panic e, p') => (Panic e, p')
    | (OutOfFuel, p') => (OutOfFuel, p')
    end.

Definition panic {A} (e : panicValue) : Parse A := fun p => (Panic e, p).
Definition outOfFuel {A} : Parse A := fun p => (OutOfFuel, p).

(** stdpp's monad notations: [x ← m; k] and [m;; k]. *)
#[global] Instance Parse_ret : MRet Parse := @ret.
#[global] Instance Parse_bind : MBind Parse := fun A B k m => bind m k.

(** [p.input.Len()], [p.input.Next(n)], [p.input.UnreadByte()],
    [p.input.String()] and the assignment to [p.currentToken]. *)
Definition inputLen : Parse Z := fun p => (Return (Buffer.Len (input p)), p).

Definition inputNext (n : Z) : Parse (list byte) := fun p =>
  let (data, b) := Buffer.Next n (input p) in
  (Return data, {| input := b; currentToken := currentToken p |}).

Definition inputUnreadByte : Parse unit := fun p =>
  (Return tt, {| input := Buffer.UnreadByte (input p);
                 currentToken := currentToken p |}).

Definition inputString : Parse (list byte) := fun p =>
  (Return (Buffer.String (input p)), p).

Definition getToken : Parse string := fun p => (Return (currentToken p), p).

Definition setToken (tok : string) : Parse unit := fun p =>
  (Return tt, {| input := input p; currentToken := tok |}).

(** [bs[0]] *)
Definition first (bs : list byte) : Parse byte :=
  match bs with
  | [] => panic IndexOutOfRange
  | c :: _ => ret c
  end.

(** [s[lo:hi]] inside a method. *)
Definition sliceString (s : list byte) (lo hi : Z) : Parse string :=
  match slice s lo hi with
  | Some t => ret (gostring t)
  | None => panic SliceBoundsOutOfRange
  end.

(** ** The lexer *)

(** The byte 0x22, the double quote. *)
Definition quote : byte := "034".

Definition isWhitespace (c : byte) : bool :=
  Ascii.eqb c " " || Ascii.eqb c "010" || Ascii.eqb c "013" || Ascii.eqb c "009".

Definition isStructural (c : byte) : bool :=
  Ascii.eqb c "{" || Ascii.eqb c "}" || Ascii.eqb c "[" || Ascii.eqb c "]"
  || Ascii.eqb c ":" || Ascii.eqb c ",".

(** [bytes.IndexByte([]byte("0123456789+-.eE"), c) >= 0] *)
Definition isNumeric (c : byte) : bool :=
  bool_decide (c ∈ list_ascii_of_string "0123456789+-.eE").

(** The loop of [skipWhitespaces].  Every iteration reads one byte, so
    [Len] iterations are all the loop can make; [n] counts them. *)
Fixpoint skipLoop (n : nat) : Parse unit :=
  match n with
  | O => ret tt
  | S n =>
      len ← inputLen;
      if 0 <? len then
        currentChar ← inputNext 1;
        c ← first currentChar;
        if negb (isWhitespace c) then inputUnreadByte
        else skipLoop n
      else ret tt
  end.

Definition skipWhitespaces : Parse unit :=
  len ← inputLen; skipLoop (Z.to_nat len).

(** The scanning loop of the string case. *)
Fixpoint stringLoop (start : Z) (n : nat) : Parse unit :=
  match n with
  | O => ret tt
  | S n =>
      len ← inputLen;
      if 0 <? len then
        currentChar ← inputNext 1;
        c ← first currentChar;
        if Ascii.eqb c quote then
          s ← inputString;
          len ← inputLen;
          tok ← sliceString s start (len - 1);
          setToken tok
        else stringLoop start n
      else ret tt
  end.

(** The scanning loop of the default case. *)
Fixpoint numberLoop (start : Z) (n : nat) : Parse unit :=
  match n with
  | O => ret tt
  | S n =>
      len ← inputLen;
      if 0 <? len then
        currentChar ← inputNext 1;
        c ← first currentChar;
        if negb (isNumeric c) then
          inputUnreadByte;;
          s ← inputString;
          len ← inputLen;
          tok ← sliceString s start len;
          setToken tok
        else numberLoop start n
      else ret tt
  end.

(** The three literal cases: [p.input.Len() >= k && string(p.input.Next(k))
    == lit], with Go's short-circuit [&&]. *)
Definition literal (k : Z) (lit : string) : Parse bool :=
  len ← inputLen;
  if k <=? len then
    data ← inputNext k;
    if String.eqb (gostring data) lit then setToken lit;; ret true
    else ret false
  else ret false.

Definition readNextToken : Parse bool :=
  skipWhitespaces;;
  len ← inputLen;
  if len =? 0 then ret false
  else
    currentChar ← inputNext 1;
    c ← first currentChar;
    if isStructural c then setToken (gostring currentChar);; ret true
    else if Ascii.eqb c "n" then literal 4 "null"
    else if Ascii.eqb c "t" then literal 4 "true"
    else if Ascii.eqb c "f" then literal 5 "false"
    else if Ascii.eqb c quote then
      start ← inputLen;
      stringLoop start (Z.to_nat start);;
      ret true
    else
      start ← inputLen;
      numberLoop start (Z.to_nat start);;
      ret true.

(** ** The values and the parser

    [json.Number(tok).Float64()] is [strconv.ParseFloat(tok, 64)] of Go's
    standard library.  The parser only asks whether it succeeds and stores
    the number it returns, so the conversion and its carrier are parameters
    of the development. *)
Section Parser.

Context {float64 : Type}.
Variable ParseFloat : string -> option float64.

(** [JSONValue], and the dynamic types that the program stores in its
    [interface{}] field. *)
Inductive JSONValue := mkJSONValue (Type_ : string) (Value : any)
with any :=
| Nil
| Float64 (num : float64)
| Str (s : string)
| Map (object : gmap string JSONValue)
| Slice (array : list JSONValue).

(** The default case of the switch in [parseValue]. *)
Definition numberOrString (tok : string) : JSONValue :=
  match ParseFloat tok with
  | Some num => mkJSONValue "number" (Float64 num)
  | None => mkJSONValue "string" (Str tok)
  end.

(** The loop of [parseObject]; [parseValue] is the recursive call. *)
Fixpoint objectLoop (parseValue : Parse JSONValue) (fuel : nat)
    (object : gmap string JSONValue) : Parse JSONValue :=
  match fuel with
  | O => outOfFuel
  | S fuel =>
      tok ← getToken;
      if negb (String.eqb tok "}") then
        let key := tok in
        readNextToken;;
        tok ← getToken;
        if negb (String.eqb tok ":") then panic (PanicString "Expected ':'")
        else
          readNextToken;;
          value ← parseValue;
          let object := <[key := value]> object in
          readNextToken;;
          objectLoop parseValue fuel object
      else ret (mkJSONValue "object" (Map object))
  end.

Definition parseObject (parseValue : Parse JSONValue) (fuel : nat)
    : Parse JSONValue :=
  let object : gmap string JSONValue := ∅ in
  readNextToken;;
  objectLoop parseValue fuel object.

(** The loop of [parseArray]. *)
Fixpoint arrayLoop (parseValue : Parse JSONValue) (fuel : nat)
    (array : list JSONValue) : Parse JSONValue :=
  match fuel with
  | O => outOfFuel
  | S fuel =>
      tok ← getToken;
      if negb (String.eqb tok "}") then
        value ← parseValue;
        let array := array ++ [value] in
        readNextToken;;
        arrayLoop parseValue fuel array
      else ret (mkJSONValue "array" (Slice array))
  end.

Definition parseArray (parseValue : Parse JSONValue) (fuel : nat)
    : Parse JSONValue :=
  let array : list JSONValue := [] in
  readNextToken;;
  arrayLoop parseValue fuel array.

(** The switch of [parseValue], entered after its [readNextToken]. *)
Definition valueSwitch (parseValue : Parse JSONValue) (fuel : nat)
    : Parse JSONValue :=
  tok ← getToken;
  if String.eqb tok "null" || String.eqb tok "true" || String.eqb tok "false"
  then ret (mkJSONValue tok Nil)
  else if String.eqb tok "{" then parseObject parseValue fuel
  else if String.eqb tok "[" then parseArray parseValue fuel
  else ret (numberOrString tok).

Fixpoint parseValue (fuel : nat) : Parse JSONValue :=
  match fuel with
  | O => outOfFuel
  | S fuel =>
      readNextToken;;
      valueSwitch (parseValue fuel) fuel
  end.

(** The driver: [NewJSONParser(jsonData).parseValue()]. *)
Definition parse (fuel : nat) (jsonData : list byte) : result JSONValue :=
  fst (parseValue fuel (NewJSONParser jsonData)).

End Parser.

(** * The vocabulary of the statements *)

(** The buffer, seen as the bytes read so far and the bytes still unread. *)
Definition cursor (seen rest : list byte) (lr : Buffer.readOp) : Buffer.t :=
  {| Buffer.buf := seen ++ rest; Buffer.off := length seen;
     Buffer.lastRead := lr |}.

(** A parser that differs from [p] in [currentToken] only. *)
Definition withToken (t : string) (p : JSONParser) : JSONParser :=
  {| input := input p; currentToken := t |}.

(** A method is oblivious of [currentToken] when running it with another
    token there changes nothing but that field, and that only if the method
    did not assign it. *)
Definition oblivious {A} (m : Parse A) : Prop :=
  forall p t,
    m (withToken t p) = m p
    \/ (m (withToken t p) = (fst (m p), withToken t (snd (m p)))
        /\ currentToken (snd (m p)) = currentToken p).

(** The byte that selects the default case of the switch. *)
Definition startsNumber (c : byte) : bool :=
  negb (isWhitespace c || isStructural c || Ascii.eqb c "n" || Ascii.eqb c "t"
        || Ascii.eqb c "f" || Ascii.eqb c quote).

(** A byte that does not end the string scan. *)
Definition notQuote (c : byte) : bool := negb (Ascii.eqb c quote).

(** [readNextToken] stores a token at [p] when the token it leaves does not
    depend on the one it found. *)
Definition stores (p : JSONParser) : Prop :=
  forall t,
    currentToken (snd (readNextToken (withToken t p)))
    = currentToken (snd (readNextToken p)).

(** The tokens that reach the default case of the switch in
    [parseValue]. *)
Definition entersDefault (tok : string) : bool :=
  negb (String.eqb tok "null" || String.eqb tok "true" || String.eqb tok "false"
        || String.eqb tok "{" || String.eqb tok "[").

(** The array loop runs on from [p], whatever fuel it is given. *)
Definition loops {float64 : Type} (ParseFloat : string -> option float64)
    (p : JSONParser) : Prop :=
  forall n m array,
    fst (arrayLoop (parseValue ParseFloat n) m array p) = OutOfFuel.

(** The rest of a turn of the object loop, from the state that the read
    after the separator leaves: the value is parsed, bound to [key], and the
    loop goes on. *)
Definition memberFrom {float64 : Type} (pv : Parse (@JSONValue float64))
    (fuel : nat) (object : gmap string JSONValue) (key : string)
    : Parse JSONValue :=
  value ← pv;
  readNextToken;;
  objectLoop pv fuel (<[key := value]> object).

(** A quoted string as it stands in the input. *)
Definition quoted (s : string) : list byte := quote :: bytes s ++ [quote].

(** The object of the specification's example. *)
Definition johnDoe : list byte :=
  bytes "{" ++ quoted "name" ++ bytes ": " ++ quoted "John Doe"
  ++ bytes ", " ++ quoted "age" ++ bytes ": 30, "
  ++ quoted "active" ++ bytes ": true, "
  ++ quoted "tags" ++ bytes ": [" ++ quoted "a" ++ bytes ", " ++ quoted "b"
  ++ bytes "]}".

(** A conversion to run closed examples with: it accepts the decimal
    integers, which [strconv.ParseFloat] accepts too, and nothing else; [Z]
    stands for their [float64] values. *)
Definition integerLiteral (s : string) : option Z :=
  Z.of_int <$> NilZero.int_of_string s.

(** ** The lexer as a function of the unread bytes *)

(** The unread bytes after the leading whitespace. *)
Fixpoint skipWs (u : list byte) : list byte :=
  match u with
  | [] => []
  | c :: r => if isWhitespace c then skipWs r else u
  end.

(** The bytes after the first quote, if there is one. *)
Fixpoint afterQuote (u : list byte) : option (list byte) :=
  match u with
  | [] => None
  | c :: r => if Ascii.eqb c quote then Some r else afterQuote r
  end.

(** The bytes from the first one outside the numeric set. *)
Fixpoint afterNumeric (u : list byte) : list byte :=
  match u with
  | [] => []
  | c :: r => if isNumeric c then afterNumeric r else u
  end.

(** What a literal case does with the bytes [r] that follow its first
    byte. *)
Definition literalSpec (k : nat) (lit : string) (r : list byte) (tok : string)
    : result bool * list byte * string :=
  if (k <=? length r)%nat then
    if String.eqb (gostring (take k r)) lit then (Return true, drop k r, lit)
    else (Return false, drop k r, tok)
  else (Return false, r, tok).

(** What [readNextToken] does, read off the unread bytes [u] and the token
    [tok] it finds: its outcome, the bytes it leaves unread and the token it
    leaves. *)
Definition lexSpec (u : list byte) (tok : string)
    : result bool * list byte * string :=
  match skipWs u with
  | [] => (Return false, [], tok)
  | c :: r =>
      if isStructural c then (Return true, r, gostring [c])
      else if Ascii.eqb c "n" then literalSpec 4 "null" r tok
      else if Ascii.eqb c "t" then literalSpec 4 "true" r tok
      else if Ascii.eqb c "f" then literalSpec 5 "false" r tok
      else if Ascii.eqb c quote then
        match afterQuote r with
        | Some r' => (Panic SliceBoundsOutOfRange, r', tok)
        | None => (Return true, [], tok)
        end
      else
        match r with
        | [] => (Return true, [], tok)
        | d :: _ =>
            if isNumeric d then
              match afterNumeric r with
              | [] => (Return true, [], tok)
              | u' => (Panic SliceBoundsOutOfRange, u', tok)
              end
            else (Return true, r, EmptyString)
        end
  end.

(** The first byte of each literal case, the number of bytes compared after
    it and the name they are compared with. *)
Definition literalCases : list (byte * nat * string) :=
  [("n"%char, 4%nat, "null"); ("t"%char, 4%nat, "true");
   ("f"%char, 5%nat, "false")].

(** The tokens that [readNextToken] can store. *)
Definition lexTokens : list string :=
  ["{"; "}"; "["; "]"; ":"; ","; "null"; "true"; "false"; EmptyString].

(** What an invariant-keeping method guarantees: the state it leaves
    satisfies [I], and the value it returns, if it returns, satisfies [Q]. *)
Definition post {float64 : Type} (I : JSONParser -> Prop)
    (Q : @JSONValue float64 -> Prop)
    (x : result (@JSONValue float64) * JSONParser) : Prop :=
  I (snd x) /\ forall v, fst x = Return v -> Q v.

Definition keeps {float64 : Type} (I : JSONParser -> Prop)
    (Q : @JSONValue float64 -> Prop) (m : Parse (@JSONValue float64)) : Prop :=
  forall p, I p -> post I Q (m p).

(** No closing brace: neither as the current token nor among the unread
    bytes. *)
Definition noBrace (p : JSONParser) : Prop :=
  currentToken p <> "}" /\ "}"%char ∉ Buffer.String (input p).

Definition braceFree (bs : list byte) : bool :=
  forallb (fun c => negb (Ascii.eqb c "}")) bs.

(** The values of type object and array. *)
Definition container {float64 : Type} (v : @JSONValue float64) : bool :=
  match v with
  | mkJSONValue _ (Map _) | mkJSONValue _ (Slice _) => true
  | _ => false
  end.

(** The tokens among [lexTokens] that reach the default case of
    [parseValue]. *)
Definition defaultTokens : list string :=
  [EmptyString; "}"; "]"; ":"; ","].

(** The values that are built from the tokens of the lexer alone: the three
    literals, the default case applied to one of [defaultTokens], and
    objects and arrays of such values, with keys among [lexTokens]. *)
Inductive producible {float64 : Type} (ParseFloat : string -> option float64)
    : @JSONValue float64 -> Prop :=
| producible_literal ty :
    ty ∈ ["null"; "true"; "false"] -> producible ParseFloat (mkJSONValue ty Nil)
| producible_default tok :
    tok ∈ defaultTokens -> producible ParseFloat (numberOrString ParseFloat tok)
| producible_object m :
    (forall k v, m !! k = Some v -> k ∈ lexTokens) ->
    (forall k v, m !! k = Some v -> producible ParseFloat v) ->
    producible ParseFloat (mkJSONValue "object" (Map m))
| producible_array l :
    (forall v, v ∈ l -> producible ParseFloat v) ->
    producible ParseFloat (mkJSONValue "array" (Slice l)).

(** The values that carry no number anywhere. *)
Inductive numberFree {float64 : Type} : @JSONValue float64 -> Prop :=
| numberFree_nil ty : numberFree (mkJSONValue ty Nil)
| numberFree_string ty s : numberFree (mkJSONValue ty (Str s))
| numberFree_object ty m :
    (forall k v, m !! k = Some v -> numberFree v) ->
    numberFree (mkJSONValue ty (Map m))
| numberFree_array ty l :
    (forall v, v ∈ l -> numberFree v) -> numberFree (mkJSONValue ty (Slice l)).

(** The line break and indentation of the example in [main]: a line feed
    and [n] tabs. *)
Definition indent (n : nat) : list byte := "010"%char :: repeat "009"%char n.

(** [jsonData], the document that [main] parses (lines 163 to 173). *)
Definition jsonData : list byte :=
  bytes "{"
  ++ indent 2 ++ quoted "name" ++ bytes ": " ++ quoted "John Doe" ++ bytes ","
  ++ indent 2 ++ quoted "age" ++ bytes ": 30,"
  ++ indent 2 ++ quoted "email" ++ bytes ": " ++ quoted "john.doe@example.com"
  ++ bytes ","
  ++ indent 2 ++ quoted "active" ++ bytes ": true,"
  ++ indent 2 ++ quoted "address" ++ bytes ": {"
  ++ indent 3 ++ quoted "city" ++ bytes ": " ++ quoted "New York" ++ bytes ","
  ++ indent 3 ++ quoted "zip" ++ bytes ": " ++ quoted "10001"
  ++ indent 2 ++ bytes "},"
  ++ indent 2 ++ quoted "tags" ++ bytes ": [" ++ quoted "golang" ++ bytes ", "
  ++ quoted "json" ++ bytes ", " ++ quoted "parser" ++ bytes ", [1, 2, 3]]"
  ++ indent 1 ++ bytes "}".

(** [main]: parse [jsonData] and print the result.  Printing is not
    modelled; [main] returns when the parse does. *)
Definition main {float64 : Type} (ParseFloat : string -> option float64)
    (fuel : nat) : result unit :=
  match parse ParseFloat fuel jsonData with
  | Return _ => Return tt
  | Panic e => Panic e
  | OutOfFuel => OutOfFuel
  end.

(** * Properties *)

(** ** The buffer, seen as the bytes read so far and the bytes still unread *)

Lemma String_cursor seen rest lr : Buffer.String (cursor seen rest lr) = rest.
Proof. unfold Buffer.String, cursor; simpl. apply drop_app_length. Qed.

Lemma Len_cursor seen rest lr :
  Buffer.Len (cursor seen rest lr) = Z.of_nat (length rest).
Proof. unfold Buffer.Len, cursor; simpl. rewrite length_app. f_equal. lia. Qed.

Lemma Next_cursor seen data rest lr (k : Z) :
  k = Z.of_nat (length data) -> 0 < k ->
  Buffer.Next k (cursor seen (data ++ rest) lr)
  = (data, cursor (seen ++ data) rest Buffer.opRead).
Proof.
  intros -> Hk. unfold Buffer.Next. rewrite Len_cursor.
  assert (Hlt : (Z.of_nat (length (data ++ rest)) <? Z.of_nat (length data))
                = false).
  { apply Z.ltb_ge. rewrite length_app. lia. }
  rewrite Hlt. apply Z.ltb_lt in Hk. rewrite Hk.
  unfold cursor; simpl. rewrite Nat2Z.id, drop_app_length, take_app_length.
  rewrite <- app_assoc, length_app. reflexivity.
Qed.

Lemma Next1_cursor seen c rest lr :
  Buffer.Next 1 (cursor seen (c :: rest) lr)
  = ([c], cursor (seen ++ [c]) rest Buffer.opRead).
Proof. apply (Next_cursor seen [c] rest lr 1); simpl; lia. Qed.

Lemma UnreadByte_cursor seen c rest :
  Buffer.UnreadByte (cursor (seen ++ [c]) rest Buffer.opRead)
  = cursor seen (c :: rest) Buffer.opInvalid.
Proof.
  unfold Buffer.UnreadByte, cursor; simpl.
  rewrite length_app; simpl.
  replace (0 <? length seen + 1)%nat with true
    by (symmetry; apply Nat.ltb_lt; lia).
  rewrite <- app_assoc. simpl. f_equal. lia.
Qed.

(** Unfolding the monad at a state. *)
Ltac run :=
  unfold mbind, Parse_bind, mret, Parse_ret, bind, ret, panic, outOfFuel,
    inputLen, inputNext, inputUnreadByte, inputString, getToken, setToken,
    first;
  cbn [fst snd input currentToken negb].

(** The loop condition [p.input.Len() > 0] with a byte still unread. *)
Ltac more_input :=
  match goal with
  | |- context [0 <? Z.of_nat (length (?c :: ?r))] =>
      replace (0 <? Z.of_nat (length (c :: r))) with true
        by (symmetry; apply Z.ltb_lt; simpl length; lia)
  end.

(** ** skipWhitespaces *)

(** Leading whitespace is consumed and the first other byte is pushed back. *)
Lemma skipLoop_stops ws : forall n seen c rest lr tok,
  forallb isWhitespace ws = true -> isWhitespace c = false ->
  (length ws < n)%nat ->
  skipLoop n (mkParser (cursor seen (ws ++ c :: rest) lr) tok)
  = (Return tt, mkParser (cursor (seen ++ ws) (c :: rest) Buffer.opInvalid) tok).
Proof.
  induction ws as [|w ws IH]; intros n seen c rest lr tok Hws Hc Hn;
    (destruct n as [|n]; [simpl in Hn; lia|]); simpl skipLoop; run;
    rewrite Len_cursor; simpl app; more_input; run; rewrite Next1_cursor; run.
  - rewrite Hc. run. rewrite UnreadByte_cursor, app_nil_r. reflexivity.
  - simpl in Hws. apply andb_prop in Hws as [Hw Hws].
    rewrite Hw. run.
    rewrite (IH n (seen ++ [w]) c rest Buffer.opRead tok Hws Hc)
      by (simpl in Hn; lia).
    rewrite <- app_assoc. reflexivity.
Qed.

Lemma skipWhitespaces_stops ws seen c rest lr tok :
  forallb isWhitespace ws = true -> isWhitespace c = false ->
  skipWhitespaces (mkParser (cursor seen (ws ++ c :: rest) lr) tok)
  = (Return tt, mkParser (cursor (seen ++ ws) (c :: rest) Buffer.opInvalid) tok).
Proof.
  intros Hws Hc. unfold skipWhitespaces. run. rewrite Len_cursor, Nat2Z.id.
  apply skipLoop_stops; auto. rewrite length_app. simpl. lia.
Qed.

(** With nothing left to read the loop body never runs. *)
Lemma skipWhitespaces_exhausted p :
  Buffer.Len (input p) = 0 -> skipWhitespaces p = (Return tt, p).
Proof. intros H. unfold skipWhitespaces. run. rewrite H. reflexivity. Qed.

(** [skipWhitespaces] never touches [currentToken]. *)
Lemma skipLoop_token n : forall p,
  currentToken (snd (skipLoop n p)) = currentToken p.
Proof.
  induction n as [|n IH]; intros p; simpl skipLoop; run; [reflexivity|].
  destruct (0 <? Buffer.Len (input p)); [|reflexivity].
  run. destruct (Buffer.Next 1 (input p)) as [data b]. run.
  destruct data as [|c data]; run; [reflexivity|].
  destruct (negb (isWhitespace c)); run; [reflexivity|].
  rewrite IH. reflexivity.
Qed.

Lemma skipWhitespaces_token p :
  currentToken (snd (skipWhitespaces p)) = currentToken p.
Proof. unfold skipWhitespaces. run. apply skipLoop_token. Qed.
(** ** The scanning loops make at most [Len] turns

    Each turn of a scanning loop reads one byte or leaves the loop, so the
    counter of the model, which starts at [Len], never ends a loop that the
    program would continue: one more turn changes nothing. *)

Lemma Len_Next1 b :
  0 < Buffer.Len b -> Buffer.Len (snd (Buffer.Next 1 b)) = Buffer.Len b - 1.
Proof.
  unfold Buffer.Next, Buffer.Len. intros H. cbn [snd Buffer.buf Buffer.off].
  replace (Z.of_nat (length (Buffer.buf b) - Buffer.off b) <? 1) with false
    by (symmetry; apply Z.ltb_ge; lia).
  change (Z.to_nat 1) with 1%nat. lia.
Qed.

(** Two copies of one turn of a scanning loop at [p] that differ in the
    rest of the loop, which [IH] covers. *)
Ltac same_turn IH p :=
  run;
  let Hpos := fresh "Hpos" in
  let Hlen := fresh "Hlen" in
  destruct (Z.ltb_spec 0 (Buffer.Len (input p))) as [Hpos | _];
    [|reflexivity];
  pose proof (Len_Next1 (input p) Hpos) as Hlen;
  destruct (Buffer.Next 1 (input p)) as [[|? ?] ?]; cbn [snd] in Hlen;
    [reflexivity|];
  run; cbv beta iota;
  match goal with
  | |- context [if ?cond then _ else _] =>
      destruct cond; first [reflexivity | apply IH; cbn [input]; lia]
  end.

Ltac no_turn p :=
  run;
  replace (0 <? Buffer.Len (input p)) with false
    by (symmetry; apply Z.ltb_ge; lia);
  reflexivity.

Lemma skipLoop_bound n : forall p,
  (Z.to_nat (Buffer.Len (input p)) <= n)%nat ->
  skipLoop (S n) p = skipLoop n p.
Proof.
  induction n as [|n IH]; intros p Hn.
  - simpl skipLoop. no_turn p.
  - change (skipLoop (S (S n)) p) with
      ((len ← inputLen;
        if 0 <? len then
          currentChar ← inputNext 1;
          c ← first currentChar;
          if negb (isWhitespace c) then inputUnreadByte else skipLoop (S n)
        else ret tt) p).
    change (skipLoop (S n) p) with
      ((len ← inputLen;
        if 0 <? len then
          currentChar ← inputNext 1;
          c ← first currentChar;
          if negb (isWhitespace c) then inputUnreadByte else skipLoop n
        else ret tt) p).
    same_turn IH p.
Qed.

Lemma stringLoop_bound start n : forall p,
  (Z.to_nat (Buffer.Len (input p)) <= n)%nat ->
  stringLoop start (S n) p = stringLoop start n p.
Proof.
  induction n as [|n IH]; intros p Hn.
  - simpl stringLoop. no_turn p.
  - change (stringLoop start (S (S n)) p) with
      ((len ← inputLen;
        if 0 <? len then
          currentChar ← inputNext 1;
          c ← first currentChar;
          if Ascii.eqb c quote then
            s ← inputString;
            len ← inputLen;
            tok ← sliceString s start (len - 1);
            setToken tok
          else stringLoop start (S n)
        else ret tt) p).
    change (stringLoop start (S n) p) with
      ((len ← inputLen;
        if 0 <? len then
          currentChar ← inputNext 1;
          c ← first currentChar;
          if Ascii.eqb c quote then
            s ← inputString;
            len ← inputLen;
            tok ← sliceString s start (len - 1);
            setToken tok
          else stringLoop start n
        else ret tt) p).
    same_turn IH p.
Qed.

Lemma numberLoop_bound start n : forall p,
  (Z.to_nat (Buffer.Len (input p)) <= n)%nat ->
  numberLoop start (S n) p = numberLoop start n p.
Proof.
  induction n as [|n IH]; intros p Hn.
  - simpl numberLoop. no_turn p.
  - change (numberLoop start (S (S n)) p) with
      ((len ← inputLen;
        if 0 <? len then
          currentChar ← inputNext 1;
          c ← first currentChar;
          if negb (isNumeric c) then
            inputUnreadByte;;
            s ← inputString;
            len ← inputLen;
            tok ← sliceString s start len;
            setToken tok
          else numberLoop start (S n)
        else ret tt) p).
    change (numberLoop start (S n) p) with
      ((len ← inputLen;
        if 0 <? len then
          currentChar ← inputNext 1;
          c ← first currentChar;
          if negb (isNumeric c) then
            inputUnreadByte;;
            s ← inputString;
            len ← inputLen;
            tok ← sliceString s start len;
            setToken tok
          else numberLoop start n
        else ret tt) p).
    same_turn IH p.
Qed.

(** ** readNextToken *)

(** At the end of the input nothing is read and nothing is stored. *)
Lemma readNextToken_exhausted p :
  Buffer.Len (input p) = 0 -> readNextToken p = (Return false, p).
Proof.
  intros H. unfold readNextToken. run.
  rewrite skipWhitespaces_exhausted by exact H. rewrite H. reflexivity.
Qed.

(** The literal check, written out on the buffer. *)
Lemma literal_run k lit p :
  literal k lit p =
    if k <=? Buffer.Len (input p) then
      if String.eqb (gostring (fst (Buffer.Next k (input p)))) lit
      then (Return true, mkParser (snd (Buffer.Next k (input p))) lit)
      else (Return false,
            mkParser (snd (Buffer.Next k (input p))) (currentToken p))
    else (Return false, p).
Proof.
  unfold literal. run. destruct (k <=? Buffer.Len (input p)); [|reflexivity].
  destruct (Buffer.Next k (input p)) as [data b]. cbn [fst snd].
  destruct (String.eqb (gostring data) lit); reflexivity.
Qed.

(** The bytes handed out by [Next] are a prefix of the unread bytes. *)
Lemma Next_data k b :
  k <= Buffer.Len b ->
  fst (Buffer.Next k b) = take (Z.to_nat k) (Buffer.String b).
Proof.
  intros H. unfold Buffer.Next, Buffer.String. cbn [fst].
  replace (Buffer.Len b <? k) with false by (symmetry; apply Z.ltb_ge; lia).
  reflexivity.
Qed.

(** A closing quote always ends the scan in the slice expression, whose
    lower bound is a length taken before the scan and whose upper bound is a
    length taken after it. *)
Lemma stringLoop_closed s : forall n seen rest lr tok start,
  forallb notQuote s = true -> (length s < n)%nat ->
  Z.of_nat (length rest) <= start ->
  stringLoop start n (mkParser (cursor seen (s ++ quote :: rest) lr) tok)
  = (Panic SliceBoundsOutOfRange,
     mkParser (cursor (seen ++ s ++ [quote]) rest Buffer.opRead) tok).
Proof.
  induction s as [|x s IH]; intros n seen rest lr tok start Hs Hn Hstart;
    (destruct n as [|n]; [simpl in Hn; lia|]); simpl stringLoop; run;
    rewrite Len_cursor; simpl app; more_input; run; rewrite Next1_cursor; run.
  - change (Ascii.eqb quote quote) with true. run.
    rewrite String_cursor, Len_cursor. unfold sliceString, slice.
    replace (start <=? Z.of_nat (length rest) - 1) with false
      by (symmetry; apply Z.leb_gt; lia).
    rewrite andb_false_r. reflexivity.
  - simpl in Hs. apply andb_prop in Hs as [Hx Hs].
    unfold notQuote in Hx. apply negb_true_iff in Hx. rewrite Hx.
    rewrite (IH n (seen ++ [x]) rest Buffer.opRead tok start Hs)
      by (simpl in Hn; lia).
    rewrite <- app_assoc. reflexivity.
Qed.

(** The numeric scan pushes the terminating byte back and then slices the
    unread bytes from [start]. *)
Lemma numberLoop_stops span : forall n seen d rest lr tok start,
  forallb isNumeric span = true -> isNumeric d = false ->
  (length span < n)%nat ->
  numberLoop start n (mkParser (cursor seen (span ++ d :: rest) lr) tok)
  = let p := cursor (seen ++ span) (d :: rest) Buffer.opInvalid in
    match slice (d :: rest) start (Z.of_nat (length (d :: rest))) with
    | Some t => (Return tt, mkParser p (gostring t))
    | None => (Panic SliceBoundsOutOfRange, mkParser p tok)
    end.
Proof.
  induction span as [|x span IH]; intros n seen d rest lr tok start Hs Hd Hn;
    (destruct n as [|n]; [simpl in Hn; lia|]); simpl numberLoop; run;
    rewrite Len_cursor; simpl app; more_input; run; rewrite Next1_cursor; run.
  - rewrite Hd. run. rewrite UnreadByte_cursor, String_cursor, Len_cursor.
    rewrite app_nil_r. unfold sliceString.
    destruct (slice (d :: rest) start (Z.of_nat (length (d :: rest))));
      reflexivity.
  - simpl in Hs. apply andb_prop in Hs as [Hx Hs]. rewrite Hx. run.
    rewrite (IH n (seen ++ [x]) d rest Buffer.opRead tok start Hs Hd)
      by (simpl in Hn; lia).
    cbv zeta. rewrite <- app_assoc. reflexivity.
Qed.

(** After the whitespace, [readNextToken] reads one byte and switches on
    it. *)
Lemma readNextToken_switch ws seen c rest lr tok :
  forallb isWhitespace ws = true -> isWhitespace c = false ->
  readNextToken (mkParser (cursor seen (ws ++ c :: rest) lr) tok)
  = (if isStructural c then setToken (gostring [c]);; ret true
     else if Ascii.eqb c "n" then literal 4 "null"
     else if Ascii.eqb c "t" then literal 4 "true"
     else if Ascii.eqb c "f" then literal 5 "false"
     else if Ascii.eqb c quote then
       start ← inputLen; stringLoop start (Z.to_nat start);; ret true
     else
       start ← inputLen; numberLoop start (Z.to_nat start);; ret true)
      (mkParser (cursor (seen ++ ws ++ [c]) rest Buffer.opRead) tok).
Proof.
  intros Hws Hc. unfold readNextToken at 1.
  unfold mbind at 1 2, Parse_bind at 1 2, bind at 1 2.
  rewrite skipWhitespaces_stops by assumption.
  unfold inputLen at 1. cbn [input currentToken].
  rewrite Len_cursor.
  replace (Z.of_nat (length (c :: rest)) =? 0) with false
    by (symmetry; apply Z.eqb_neq; simpl length; lia).
  unfold mbind at 1 2, Parse_bind at 1 2, bind at 1 2.
  unfold inputNext at 1. cbn [input currentToken].
  rewrite Next1_cursor. unfold first at 1, ret at 1.
  rewrite <- app_assoc. reflexivity.
Qed.

(** The byte that selects a literal case has already been read when the
    literal is compared: the comparison sees the bytes after it, so the
    spelled-out names [null], [true] and [false] are never recognised. *)
Lemma readNextToken_literal_rejected lit ws seen rest lr tok :
  lit ∈ ["null"; "true"; "false"] -> forallb isWhitespace ws = true ->
  exists p',
    readNextToken (mkParser (cursor seen (ws ++ bytes lit ++ rest) lr) tok)
    = (Return false, p')
    /\ currentToken p' = tok.
Proof.
  intros Hlit Hws.
  assert (Hcases : lit = "null" \/ lit = "true" \/ lit = "false").
  { rewrite !elem_of_cons, elem_of_nil in Hlit. tauto. }
  destruct Hcases as [-> | [-> | ->]]; simpl bytes; simpl app;
    rewrite readNextToken_switch by (assumption || reflexivity);
    cbn [isStructural Ascii.eqb Bool.eqb orb]; rewrite literal_run;
    cbn [input currentToken]; rewrite Len_cursor;
    match goal with
    | |- context [?k <=? ?l] => destruct (Z.leb_spec k l) as [Hk | Hk]
    end;
    try (eexists; split; reflexivity);
    rewrite Next_data, String_cursor by (rewrite Len_cursor; exact Hk);
    (destruct rest as [|x rest]; [simpl length in Hk; lia|]);
    eexists; split; reflexivity.
Qed.

(** A string token with its closing quote: the scan panics in the slice
    expression, with the closing quote consumed and [currentToken] as it
    was. *)
Lemma readNextToken_string_closed ws s seen rest lr tok :
  forallb isWhitespace ws = true -> forallb notQuote s = true ->
  readNextToken
    (mkParser (cursor seen (ws ++ quote :: s ++ quote :: rest) lr) tok)
  = (Panic SliceBoundsOutOfRange,
     mkParser (cursor (seen ++ ws ++ quote :: s ++ [quote]) rest Buffer.opRead)
       tok).
Proof.
  intros Hws Hs. rewrite readNextToken_switch by (assumption || reflexivity).
  cbn [isStructural Ascii.eqb Bool.eqb orb quote]. fold quote.
  run. rewrite Len_cursor, Nat2Z.id.
  rewrite stringLoop_closed; try assumption.
  - repeat (rewrite <- app_assoc; simpl app). reflexivity.
  - rewrite length_app. simpl. lia.
  - rewrite length_app. simpl. lia.
Qed.

(** A numeric scan that ends at a byte outside the set.  The terminating
    byte is pushed back in every case; the token is stored only when the
    scan read nothing but that byte, and it is then the empty string. *)
Lemma readNextToken_number ws c span d seen rest lr tok :
  forallb isWhitespace ws = true -> startsNumber c = true ->
  forallb isNumeric span = true -> isNumeric d = false ->
  readNextToken
    (mkParser (cursor seen (ws ++ c :: span ++ d :: rest) lr) tok)
  = let b := cursor (seen ++ ws ++ c :: span) (d :: rest) Buffer.opInvalid in
    match span with
    | [] => (Return true, mkParser b EmptyString)
    | _ :: _ => (Panic SliceBoundsOutOfRange, mkParser b tok)
    end.
Proof.
  intros Hws Hc Hspan Hd. unfold startsNumber in Hc.
  apply negb_true_iff in Hc.
  do 5 (apply orb_false_elim in Hc as [Hc ?]).
  rewrite readNextToken_switch by assumption.
  repeat match goal with H : _ = false |- _ => rewrite H; clear H end.
  run. rewrite Len_cursor, Nat2Z.id.
  rewrite numberLoop_stops by
    (try assumption; rewrite length_app; simpl; lia).
  cbv zeta. unfold slice.
  replace (0 <=? Z.of_nat (length (span ++ d :: rest))) with true
    by (symmetry; apply Z.leb_le; lia).
  replace (Z.of_nat (length (d :: rest)) <=? Z.of_nat (length (d :: rest)))
    with true by (symmetry; apply Z.leb_le; lia).
  rewrite andb_true_r, andb_true_l.
  destruct span as [|x span].
  - simpl app. rewrite Z.leb_refl, Z.sub_diag. simpl.
    repeat (rewrite <- app_assoc; simpl app). reflexivity.
  - replace (Z.of_nat (length ((x :: span) ++ d :: rest))
             <=? Z.of_nat (length (d :: rest))) with false
      by (symmetry; apply Z.leb_gt; rewrite length_app; simpl; lia).
    repeat (rewrite <- app_assoc; simpl app). reflexivity.
Qed.

(** A buffer with bytes left to read is a cursor in front of them. *)
Lemma cursor_of_unread b c rest :
  Buffer.String b = c :: rest ->
  b = cursor (take (Buffer.off b) (Buffer.buf b)) (c :: rest) (Buffer.lastRead b).
Proof.
  destruct b as [buf off lr]. unfold Buffer.String, cursor. simpl. intros H.
  assert (Hoff : (off < length buf)%nat).
  { destruct (Nat.lt_ge_cases off (length buf)) as [Hlt | Hge]; [exact Hlt|].
    rewrite drop_ge in H by exact Hge. discriminate. }
  rewrite <- H, take_drop, length_take. f_equal. lia.
Qed.

Lemma parser_of_unread p c rest :
  Buffer.String (input p) = c :: rest ->
  p = mkParser
        (cursor (take (Buffer.off (input p)) (Buffer.buf (input p)))
           (c :: rest) (Buffer.lastRead (input p)))
        (currentToken p).
Proof.
  intros H. destruct p as [b tok]. simpl in *. f_equal.
  apply cursor_of_unread. exact H.
Qed.



(** ** The lexer never reads [currentToken] *)

Lemma oblivious_bind {A B} (m : Parse A) (k : A -> Parse B) :
  oblivious m -> (forall a, oblivious (k a)) -> oblivious (m ≫= k).
Proof.
  intros Hm Hk p t. unfold mbind, Parse_bind, bind.
  destruct (Hm p t) as [HL | [HR Htok]].
  - left. rewrite HL. reflexivity.
  - rewrite HR. destruct (m p) as [[a | e |] q]; cbn [fst snd] in *.
    + destruct (Hk a q t) as [HL' | [HR' Htok']].
      * left. exact HL'.
      * right. split; [exact HR' | congruence].
    + right. split; [reflexivity | exact Htok].
    + right. split; [reflexivity | exact Htok].
Qed.

Lemma oblivious_ret {A} (a : A) : oblivious (ret a).
Proof. intros p t. right. split; reflexivity. Qed.

Lemma oblivious_panic {A} e : oblivious (@panic A e).
Proof. intros p t. right. split; reflexivity. Qed.

Lemma oblivious_inputLen : oblivious inputLen.
Proof. intros p t. right. split; reflexivity. Qed.

Lemma oblivious_inputNext n : oblivious (inputNext n).
Proof.
  intros p t. right. unfold inputNext, withToken. cbn [input currentToken].
  destruct (Buffer.Next n (input p)). split; reflexivity.
Qed.

Lemma oblivious_inputUnreadByte : oblivious inputUnreadByte.
Proof. intros p t. right. split; reflexivity. Qed.

Lemma oblivious_inputString : oblivious inputString.
Proof. intros p t. right. split; reflexivity. Qed.

Lemma oblivious_setToken tok : oblivious (setToken tok).
Proof. intros p t. left. reflexivity. Qed.

Lemma oblivious_first bs : oblivious (first bs).
Proof. destruct bs; [apply oblivious_panic | apply oblivious_ret]. Qed.

Lemma oblivious_sliceString s lo hi : oblivious (sliceString s lo hi).
Proof.
  unfold sliceString.
  destruct (slice s lo hi); [apply oblivious_ret | apply oblivious_panic].
Qed.

Create HintDb oblivious.
#[local] Hint Resolve oblivious_ret oblivious_panic oblivious_inputLen
  oblivious_inputNext oblivious_inputUnreadByte oblivious_inputString
  oblivious_setToken oblivious_first oblivious_sliceString : oblivious.

(** Walks through a method: one bind or one conditional at a time. *)
Ltac oblivious_step :=
  match goal with
  | |- oblivious (_ ≫= _) => apply oblivious_bind; [|intros ?]
  | |- oblivious (if ?c then _ else _) => destruct c
  | |- oblivious _ => solve [auto with oblivious]
  end.

Lemma oblivious_skipLoop n : oblivious (skipLoop n).
Proof.
  induction n as [|n IH]; simpl skipLoop; repeat oblivious_step; exact IH.
Qed.

Lemma oblivious_stringLoop start n : oblivious (stringLoop start n).
Proof.
  induction n as [|n IH]; simpl stringLoop; repeat oblivious_step; exact IH.
Qed.

Lemma oblivious_numberLoop start n : oblivious (numberLoop start n).
Proof.
  induction n as [|n IH]; simpl numberLoop; repeat oblivious_step; exact IH.
Qed.

Lemma oblivious_literal k lit : oblivious (literal k lit).
Proof. unfold literal. repeat oblivious_step. Qed.

#[local] Hint Resolve oblivious_skipLoop oblivious_stringLoop
  oblivious_numberLoop oblivious_literal : oblivious.

Lemma oblivious_readNextToken : oblivious readNextToken.
Proof. unfold readNextToken, skipWhitespaces. repeat oblivious_step. Qed.

Lemma stores_readNextToken p t :
  stores p -> readNextToken (withToken t p) = readNextToken p.
Proof.
  intros Hst. destruct (oblivious_readNextToken p t) as [HL | [HR Htok]].
  - exact HL.
  - specialize (Hst t). rewrite HR in Hst. cbn [snd withToken currentToken] in Hst.
    rewrite Htok in Hst. subst t. destruct p; reflexivity.
Qed.

(** ** The parser *)

Section ParserFacts.

Context {float64 : Type} (ParseFloat : string -> option float64).
Implicit Types (pv : Parse (@JSONValue float64)) (p : JSONParser).

Lemma parseValue_S fuel p :
  parseValue ParseFloat (S fuel) p
  = match readNextToken p with
    | (Return _, p') =>
        valueSwitch ParseFloat (parseValue ParseFloat fuel) fuel p'
    | (Panic e, p') => (Panic e, p')
    | (OutOfFuel, p') => (OutOfFuel, p')
    end.
Proof. reflexivity. Qed.

(** In the default case the token is a number if it converts and a string
    if it does not. *)
Lemma valueSwitch_default pv fuel p :
  entersDefault (currentToken p) = true ->
  valueSwitch ParseFloat pv fuel p
  = (Return
       match ParseFloat (currentToken p) with
       | Some num => mkJSONValue "number" (Float64 num)
       | None => mkJSONValue "string" (Str (currentToken p))
       end, p).
Proof.
  unfold entersDefault, valueSwitch. intros H. run.
  apply negb_true_iff in H.
  do 2 (apply orb_false_elim in H as [H ?]).
  rewrite H.
  repeat match goal with H : _ = false |- _ => rewrite H; clear H end.
  reflexivity.
Qed.

Lemma valueSwitch_array pv fuel p :
  currentToken p = "[" ->
  valueSwitch ParseFloat pv fuel p = parseArray pv fuel p.
Proof. unfold valueSwitch. run. intros ->. reflexivity. Qed.

Lemma parseArray_run pv fuel p :
  parseArray pv fuel p
  = match readNextToken p with
    | (Return _, p') => arrayLoop pv fuel [] p'
    | (Panic e, p') => (Panic e, p')
    | (OutOfFuel, p') => (OutOfFuel, p')
    end.
Proof. reflexivity. Qed.

Lemma parseObject_run pv fuel p :
  parseObject pv fuel p
  = match readNextToken p with
    | (Return _, p') => objectLoop pv fuel ∅ p'
    | (Panic e, p') => (Panic e, p')
    | (OutOfFuel, p') => (OutOfFuel, p')
    end.
Proof. reflexivity. Qed.

(** One turn of the array loop. *)
Lemma arrayLoop_S pv fuel array p :
  currentToken p <> "}" ->
  arrayLoop pv (S fuel) array p
  = (value ← pv; readNextToken;; arrayLoop pv fuel (array ++ [value])) p.
Proof.
  intros H. apply String.eqb_neq in H. simpl arrayLoop.
  unfold mbind at 1, Parse_bind at 1, bind at 1, getToken at 1.
  rewrite H. reflexivity.
Qed.

(** One turn of the object loop. *)
Lemma objectLoop_S pv fuel object p :
  currentToken p <> "}" ->
  objectLoop pv (S fuel) object p
  = (readNextToken;;
     tok ← getToken;
     if negb (String.eqb tok ":") then panic (PanicString "Expected ':'")
     else
       readNextToken;;
       value ← pv;
       readNextToken;;
       objectLoop pv fuel (<[currentToken p := value]> object)) p.
Proof.
  intros H. apply String.eqb_neq in H. simpl objectLoop.
  unfold mbind at 1, Parse_bind at 1, bind at 1, getToken at 1.
  rewrite H. reflexivity.
Qed.

(** *** Arrays on an exhausted input *)

Lemma loops_step p p1 p2 b1 b2 :
  currentToken p <> "}" ->
  readNextToken p = (Return b1, p1) ->
  entersDefault (currentToken p1) = true ->
  readNextToken p1 = (Return b2, p2) ->
  loops ParseFloat p2 -> loops ParseFloat p.
Proof.
  intros Htok Hr1 Hdef Hr2 Hloops n m array.
  destruct m as [|m]; [reflexivity|].
  rewrite arrayLoop_S by exact Htok.
  unfold mbind at 1, Parse_bind at 1, bind at 1.
  destruct n as [|n]; [reflexivity|].
  rewrite parseValue_S, Hr1, valueSwitch_default by exact Hdef.
  unfold mbind at 1, Parse_bind at 1, bind at 1. rewrite Hr2.
  apply Hloops.
Qed.

(** With the input exhausted and a token that is neither [}] nor the start
    of a value, every turn appends one more element and tests the same
    token again. *)
Lemma loops_exhausted p :
  Buffer.Len (input p) = 0 ->
  currentToken p <> "}" -> entersDefault (currentToken p) = true ->
  loops ParseFloat p.
Proof.
  intros Hlen Htok Hdef n m. induction m as [|m IH]; intros array;
    [reflexivity|].
  rewrite arrayLoop_S by exact Htok.
  unfold mbind at 1, Parse_bind at 1, bind at 1.
  destruct n as [|n]; [reflexivity|].
  rewrite parseValue_S, readNextToken_exhausted by exact Hlen.
  rewrite valueSwitch_default by exact Hdef.
  unfold mbind at 1, Parse_bind at 1, bind at 1.
  rewrite readNextToken_exhausted by exact Hlen.
  apply IH.
Qed.

End ParserFacts.

(** ** Runs on concrete inputs *)

(** Replaces a call of the lexer at a closed state by its outcome. *)
Ltac lex :=
  match goal with
  | |- context [readNextToken ?p] =>
      let r := eval vm_compute in (readNextToken p) in
      replace (readNextToken p) with r by (vm_compute; reflexivity)
  end.

(** One turn of the array loop at a closed state. *)
Ltac turn :=
  match goal with
  | |- loops ?pf ?p =>
      let r1 := eval vm_compute in (readNextToken p) in
      match r1 with
      | (Return ?b1, ?p1) =>
          let r2 := eval vm_compute in (readNextToken p1) in
          match r2 with
          | (Return ?b2, ?p2) =>
              apply (loops_step pf p p1 p2 b1 b2);
              [ discriminate
              | vm_compute; reflexivity
              | reflexivity
              | vm_compute; reflexivity
              | ]
          end
      end
  end.

(** C1.  [[1, 2, 3]] is not parsed into an array of three numbers: the
    loop of [parseArray] ends on the token [}], not on []], so after the
    closing bracket it goes on appending elements and the call never
    returns, whatever the fuel. *)
Theorem parseArray_1_2_3_never_returns
    {float64 : Type} (ParseFloat : string -> option float64) (fuel : nat) :
  parse ParseFloat fuel (bytes "[1, 2, 3]") = OutOfFuel.
Proof.
  destruct fuel as [|n]; [reflexivity|].
  unfold parse. rewrite parseValue_S. lex.
  rewrite valueSwitch_array by reflexivity.
  rewrite parseArray_run. lex.
  enough (H : loops ParseFloat
    {| input := {| Buffer.buf := bytes "[1, 2, 3]"; Buffer.off := 2;
                   Buffer.lastRead := Buffer.opInvalid |};
       currentToken := EmptyString |}) by apply H.
  turn. turn. turn.
  apply loops_exhausted; [reflexivity | discriminate | reflexivity].
Qed.

(** C2.  The example object is not parsed: [parseObject] asks for the first
    key, and the lexer panics in the slice expression of line 64 when it
    reaches the closing quote of [name]. *)
Theorem parse_johnDoe_panics
    {float64 : Type} (ParseFloat : string -> option float64) (n : nat) :
  parse ParseFloat (S (S n)) johnDoe = Panic SliceBoundsOutOfRange.
Proof. vm_compute. reflexivity. Qed.

(** C5.  On the object with a key, a space and a string, the parse panics
    in the lexer, at the closing quote of the key, before the separator is
    ever looked at: the panic is not the one of line 129. *)
Theorem parse_missing_colon_panics_in_lexer
    {float64 : Type} (ParseFloat : string -> option float64) (n : nat) :
  parse ParseFloat (S (S n))
    (bytes "{" ++ quoted "a" ++ bytes " " ++ quoted "b" ++ bytes "}")
  = Panic SliceBoundsOutOfRange.
Proof. vm_compute. reflexivity. Qed.

(** The separator check itself, on a key that the lexer can produce. *)
Example parse_missing_colon_after_number
    {float64 : Type} (ParseFloat : string -> option float64) (n : nat) :
  parse ParseFloat (S (S n)) (bytes "{1 2}")
  = Panic (PanicString "Expected ':'").
Proof. vm_compute. reflexivity. Qed.

(** ** The lexer on any state *)

(** A parser with unread bytes, as a cursor. *)
Lemma parser_cursor p ws c rest :
  Buffer.String (input p) = ws ++ c :: rest ->
  exists seen lr,
    p = mkParser (cursor seen (ws ++ c :: rest) lr) (currentToken p).
Proof.
  intros H. destruct ws as [|w ws]; simpl app in *;
    do 2 eexists; apply parser_of_unread; exact H.
Qed.

(** C3.  When the next bytes after the whitespace spell [null], [true] or
    [false], [readNextToken] produces no token: it returns [false] and
    leaves [currentToken] as it was.  The first byte is consumed before the
    comparison, which then sees [ull] and a further byte, never [null]. *)
Theorem readNextToken_rejects_spelled_literal p lit ws rest :
  lit ∈ ["null"; "true"; "false"] ->
  forallb isWhitespace ws = true ->
  Buffer.String (input p) = ws ++ bytes lit ++ rest ->
  fst (readNextToken p) = Return false
  /\ currentToken (snd (readNextToken p)) = currentToken p.
Proof.
  intros Hlit Hws Hin.
  assert (Hc : exists c tl, bytes lit ++ rest = c :: tl).
  { rewrite !elem_of_cons, elem_of_nil in Hlit.
    destruct Hlit as [-> | [-> | [-> | []]]]; simpl; eauto. }
  destruct Hc as (c & tl & Hc). rewrite Hc in Hin.
  destruct (parser_cursor p ws c tl Hin) as (seen & lr & ->).
  cbn [currentToken]. rewrite <- Hc.
  destruct (readNextToken_literal_rejected lit ws seen rest lr
              (currentToken p) Hlit Hws) as (p' & -> & Htok).
  split; [reflexivity | exact Htok].
Qed.

Lemma readNextToken_rejects_spelled_literal_witness :
  fst (readNextToken (NewJSONParser (bytes " null,"))) = Return false
  /\ currentToken (snd (readNextToken (NewJSONParser (bytes " null,"))))
     = currentToken (NewJSONParser (bytes " null,")).
Proof.
  apply (readNextToken_rejects_spelled_literal
           (NewJSONParser (bytes " null,")) "null" (bytes " ") (bytes ",")).
  - constructor.
  - reflexivity.
  - reflexivity.
Defined.

(** What the lexer does recognise as the literal: the first byte followed
    by the whole name. *)
Example readNextToken_nnull :
  readNextToken (NewJSONParser (bytes "nnull"))
  = (Return true,
     {| input := {| Buffer.buf := bytes "nnull"; Buffer.off := 5;
                    Buffer.lastRead := Buffer.opRead |};
        currentToken := "null" |}).
Proof. reflexivity. Qed.

(** C4.  When the next byte after the whitespace is a quote and a later
    quote closes the string, [readNextToken] stores no token at all: it
    panics in the slice expression of line 64, whose bounds are the number
    of unread bytes before the scan and after it, less one. *)
Theorem readNextToken_closed_string_panics p ws s rest :
  forallb isWhitespace ws = true ->
  forallb notQuote s = true ->
  Buffer.String (input p) = ws ++ quote :: s ++ quote :: rest ->
  fst (readNextToken p) = Panic SliceBoundsOutOfRange
  /\ currentToken (snd (readNextToken p)) = currentToken p
  /\ Buffer.String (input (snd (readNextToken p))) = rest.
Proof.
  intros Hws Hs Hin.
  destruct (parser_cursor p ws _ _ Hin) as (seen & lr & ->).
  rewrite readNextToken_string_closed by assumption.
  cbn [fst snd input currentToken]. rewrite String_cursor. auto.
Qed.

Lemma readNextToken_closed_string_panics_witness :
  fst (readNextToken (NewJSONParser (quoted "a\b" ++ bytes ",")))
  = Panic SliceBoundsOutOfRange
  /\ currentToken
       (snd (readNextToken (NewJSONParser (quoted "a\b" ++ bytes ","))))
     = currentToken (NewJSONParser (quoted "a\b" ++ bytes ","))
  /\ Buffer.String
       (input (snd (readNextToken (NewJSONParser (quoted "a\b" ++ bytes ",")))))
     = bytes ",".
Proof.
  apply (readNextToken_closed_string_panics
           (NewJSONParser (quoted "a\b" ++ bytes ",")) [] (bytes "a\b")
           (bytes ",")); reflexivity.
Defined.

(** C6.  The numeric spans [1.2.3] and [--5] are not produced as tokens.
    Followed by a byte outside the set, the scan panics in the slice
    expression of line 74; at the end of the input it returns [true] with
    [currentToken] still empty. *)
Theorem readNextToken_numeric_span_not_produced :
  fst (readNextToken (NewJSONParser (bytes "1.2.3,")))
  = Panic SliceBoundsOutOfRange
  /\ fst (readNextToken (NewJSONParser (bytes "--5,")))
     = Panic SliceBoundsOutOfRange
  /\ (fst (readNextToken (NewJSONParser (bytes "1.2.3"))) = Return true
      /\ currentToken (snd (readNextToken (NewJSONParser (bytes "1.2.3"))))
         = EmptyString)
  /\ (fst (readNextToken (NewJSONParser (bytes "--5"))) = Return true
      /\ currentToken (snd (readNextToken (NewJSONParser (bytes "--5"))))
         = EmptyString).
Proof. repeat split; reflexivity. Qed.

(** C8.  When the numeric scan ends at a byte outside the set, that byte
    is pushed back: the unread bytes begin with it when the scan is over,
    on the path that stores a token and on the path that panics in the
    slice expression alike. *)
Theorem readNextToken_number_pushes_back p ws c span d rest :
  forallb isWhitespace ws = true -> startsNumber c = true ->
  forallb isNumeric span = true -> isNumeric d = false ->
  Buffer.String (input p) = ws ++ c :: span ++ d :: rest ->
  Buffer.String (input (snd (readNextToken p))) = d :: rest.
Proof.
  intros Hws Hc Hspan Hd Hin.
  destruct (parser_cursor p ws _ _ Hin) as (seen & lr & ->).
  rewrite readNextToken_number by assumption. cbv zeta.
  destruct span; cbn [snd input]; apply String_cursor.
Qed.

Lemma readNextToken_number_pushes_back_witness :
  Buffer.String (input (snd (readNextToken (NewJSONParser (bytes " 7, 8")))))
  = bytes ", 8".
Proof.
  apply (readNextToken_number_pushes_back
           (NewJSONParser (bytes " 7, 8")) (bytes " ") "7" [] "," (bytes " 8"));
    reflexivity.
Defined.

(** The same scan followed by the next call: it starts at the byte pushed
    back. *)
Example readNextToken_after_number :
  let p := snd (readNextToken (NewJSONParser (bytes " 7, 8"))) in
  currentToken p = EmptyString
  /\ readNextToken p
     = (Return true,
        {| input := {| Buffer.buf := bytes " 7, 8"; Buffer.off := 3;
                       Buffer.lastRead := Buffer.opRead |};
           currentToken := "," |}).
Proof. split; reflexivity. Qed.

(** ** The parser on any state *)

(** C7.  Whitespace between two tokens changes the value.  After [true] the
    literal check consumes one byte more than the name: the comma in one
    input, the space in the other, and the two arrays differ in length. *)
Theorem parse_whitespace_changes_value
    {float64 : Type} (ParseFloat : string -> option float64) (n : nat) :
  parse ParseFloat (4 + n) (bytes "[true,1}")
  = Return (mkJSONValue "array" (Slice [numberOrString ParseFloat EmptyString]))
  /\ parse ParseFloat (4 + n) (bytes "[true ,1}")
     = Return (mkJSONValue "array"
                 (Slice [numberOrString ParseFloat ",";
                         numberOrString ParseFloat "}"]))
  /\ parse ParseFloat (4 + n) (bytes "[true,1}")
     <> parse ParseFloat (4 + n) (bytes "[true ,1}").
Proof.
  assert (H1 : parse ParseFloat (4 + n) (bytes "[true,1}")
    = Return (mkJSONValue "array"
                (Slice [numberOrString ParseFloat EmptyString])))
    by (vm_compute; reflexivity).
  assert (H2 : parse ParseFloat (4 + n) (bytes "[true ,1}")
    = Return (mkJSONValue "array"
                (Slice [numberOrString ParseFloat ",";
                        numberOrString ParseFloat "}"])))
    by (vm_compute; reflexivity).
  split; [exact H1 | split; [exact H2 |]].
  rewrite H1, H2. intros [=].
Qed.

(** Whitespace after a number of two bytes or more, at the end of the
    input, turns a returned value into a panic. *)
Example parse_trailing_newline
    {float64 : Type} (ParseFloat : string -> option float64) (n : nat) :
  parse ParseFloat (S n) (bytes "12")
  = Return (numberOrString ParseFloat EmptyString)
  /\ parse ParseFloat (S n) ["1"; "2"; "010"]%char
     = Panic SliceBoundsOutOfRange.
Proof. split; vm_compute; reflexivity. Qed.



(** The truncated literal of the specification: the parse returns the
    empty string, the stale token of a fresh parser. *)
Example parse_tru
    {float64 : Type} (ParseFloat : string -> option float64) (n : nat) :
  parse ParseFloat (S n) (bytes "tru")
  = Return (numberOrString ParseFloat EmptyString).
Proof. vm_compute. reflexivity. Qed.

(** C9, as amended.  After the separator, [parseObject] reads a token and
    calls [parseValue], which reads again before its switch.  When that
    second read stores a token, the token read after the separator is
    discarded: the member is parsed as it would be with any other token [t]
    in its place. *)
Theorem objectLoop_discards_token_after_separator
    {float64 : Type} (ParseFloat : string -> option float64)
    (fuel n : nat) (object : gmap string JSONValue)
    (p pc pd : JSONParser) (b b' : bool) (t : string) :
  currentToken p <> "}" ->
  readNextToken p = (Return b, pc) -> currentToken pc = ":" ->
  readNextToken pc = (Return b', pd) ->
  stores pd ->
  objectLoop (parseValue ParseFloat (S fuel)) (S n) object p
  = memberFrom (parseValue ParseFloat (S fuel)) n object (currentToken p)
      (withToken t pd).
Proof.
  intros Hkey Hsep Hcolon Hread Hstores.
  rewrite objectLoop_S by exact Hkey.
  unfold mbind at 1, Parse_bind at 1, bind at 1. rewrite Hsep.
  unfold mbind at 1, Parse_bind at 1, bind at 1, getToken at 1.
  rewrite Hcolon. cbn [String.eqb Ascii.eqb Bool.eqb negb].
  unfold mbind at 1, Parse_bind at 1, bind at 1. rewrite Hread.
  change (memberFrom (parseValue ParseFloat (S fuel)) n object (currentToken p) pd
          = memberFrom (parseValue ParseFloat (S fuel)) n object (currentToken p)
              (withToken t pd)).
  unfold memberFrom, mbind, Parse_bind, bind.
  rewrite !parseValue_S, stores_readNextToken by exact Hstores.
  reflexivity.
Qed.

Lemma objectLoop_discards_token_after_separator_witness :
  objectLoop (parseValue integerLiteral 1) 2 ∅
    {| input := {| Buffer.buf := bytes "{nnull:1}"; Buffer.off := 6;
                   Buffer.lastRead := Buffer.opRead |};
       currentToken := "null" |}
  = memberFrom (parseValue integerLiteral 1) 1 ∅ "null"
      (withToken "["
         {| input := {| Buffer.buf := bytes "{nnull:1}"; Buffer.off := 8;
                        Buffer.lastRead := Buffer.opInvalid |};
            currentToken := EmptyString |}).
Proof.
  apply (objectLoop_discards_token_after_separator integerLiteral 0 1 ∅
           {| input := {| Buffer.buf := bytes "{nnull:1}"; Buffer.off := 6;
                          Buffer.lastRead := Buffer.opRead |};
              currentToken := "null" |}
           {| input := {| Buffer.buf := bytes "{nnull:1}"; Buffer.off := 7;
                          Buffer.lastRead := Buffer.opRead |};
              currentToken := ":" |}
           {| input := {| Buffer.buf := bytes "{nnull:1}"; Buffer.off := 8;
                          Buffer.lastRead := Buffer.opInvalid |};
              currentToken := EmptyString |}
           true true "[").
  - discriminate.
  - reflexivity.
  - reflexivity.
  - reflexivity.
  - intros t. reflexivity.
Defined.

(** C9, as stated, fails.  In [{,:}] the read after the separator stores
    [}] and exhausts the input; the read of [parseValue] then stores
    nothing, the switch runs on [}] and the loop ends on it.  With another
    token in its place the parse takes another course, so the token read
    after the separator was not discarded. *)
Lemma token_after_separator_not_always_discarded :
  ~ exists (float64 : Type) (ParseFloat : string -> option float64),
      forall (fuel n : nat) (object : gmap string JSONValue)
             (p pc pd : JSONParser) (b b' : bool) (t : string),
        currentToken p <> "}" ->
        readNextToken p = (Return b, pc) -> currentToken pc = ":" ->
        readNextToken pc = (Return b', pd) ->
        objectLoop (parseValue ParseFloat (S fuel)) (S n) object p
        = memberFrom (parseValue ParseFloat (S fuel)) n object (currentToken p)
            (withToken t pd).
Proof.
  intros (float64 & ParseFloat & H).
  specialize (H 0%nat 1%nat ∅
    {| input := {| Buffer.buf := bytes "{,:}"; Buffer.off := 2;
                   Buffer.lastRead := Buffer.opRead |};
       currentToken := "," |}
    {| input := {| Buffer.buf := bytes "{,:}"; Buffer.off := 3;
                   Buffer.lastRead := Buffer.opRead |};
       currentToken := ":" |}
    {| input := {| Buffer.buf := bytes "{,:}"; Buffer.off := 4;
                   Buffer.lastRead := Buffer.opRead |};
       currentToken := "}" |}
    true true "null").
  assert (Hfst := f_equal fst
    (H ltac:(discriminate) eq_refl eq_refl eq_refl)).
  vm_compute in Hfst. discriminate Hfst.
Qed.

(** The same input from the top: the value bound to the key is the token
    read after the separator. *)
Example parse_member_bound_to_token_after_separator
    {float64 : Type} (ParseFloat : string -> option float64) (n : nat) :
  parse ParseFloat (3 + n) (bytes "{,:}")
  = Return (mkJSONValue "object"
              (Map {[ "," := numberOrString ParseFloat "}" ]})).
Proof. vm_compute. reflexivity. Qed.

(** ** Two halves of claims that hold as they stand *)

(** X1 (the first half of C6).  For every token that reaches the default
    case of the switch in [parseValue], the value returned is the number
    that the conversion yields when it succeeds, and the string carrying the
    token text when it fails. *)
Theorem parseValue_default_case
    {float64 : Type} (ParseFloat : string -> option float64)
    (fuel : nat) (p p' : JSONParser) (b : bool) :
  readNextToken p = (Return b, p') ->
  entersDefault (currentToken p') = true ->
  parseValue ParseFloat (S fuel) p
  = (Return
       match ParseFloat (currentToken p') with
       | Some num => mkJSONValue "number" (Float64 num)
       | None => mkJSONValue "string" (Str (currentToken p'))
       end, p').
Proof.
  intros Hread Hdef. rewrite parseValue_S, Hread.
  apply valueSwitch_default. exact Hdef.
Qed.

Lemma parseValue_default_case_witness :
  parseValue integerLiteral 1
    {| input := Buffer.NewBuffer []; currentToken := "30" |}
  = (Return (mkJSONValue "number" (Float64 30)),
     {| input := Buffer.NewBuffer []; currentToken := "30" |}).
Proof.
  apply (parseValue_default_case integerLiteral 0
           {| input := Buffer.NewBuffer []; currentToken := "30" |}
           {| input := Buffer.NewBuffer []; currentToken := "30" |} false);
    reflexivity.
Defined.

(** X2 (the first half of C5).  Whenever the token read after a key is not
    the separator, the turn of the object loop ends in the panic of line
    129: no object is returned and nothing more is read. *)
Theorem objectLoop_missing_separator_panics
    {float64 : Type} (pv : Parse (@JSONValue float64)) (fuel : nat)
    (object : gmap string JSONValue) (p p' : JSONParser) (b : bool) :
  currentToken p <> "}" ->
  readNextToken p = (Return b, p') ->
  currentToken p' <> ":" ->
  objectLoop pv (S fuel) object p = (Panic (PanicString "Expected ':'"), p').
Proof.
  intros Hkey Hread Hsep. rewrite objectLoop_S by exact Hkey.
  unfold mbind at 1, Parse_bind at 1, bind at 1. rewrite Hread.
  unfold mbind at 1, Parse_bind at 1, bind at 1, getToken at 1.
  apply String.eqb_neq in Hsep. rewrite Hsep. reflexivity.
Qed.

Lemma objectLoop_missing_separator_panics_witness :
  objectLoop (parseValue integerLiteral 1) 1 ∅
    {| input := {| Buffer.buf := bytes "{1 2}"; Buffer.off := 2;
                   Buffer.lastRead := Buffer.opInvalid |};
       currentToken := EmptyString |}
  = (Panic (PanicString "Expected ':'"),
     {| input := {| Buffer.buf := bytes "{1 2}"; Buffer.off := 4;
                    Buffer.lastRead := Buffer.opInvalid |};
        currentToken := EmptyString |}).
Proof.
  apply (objectLoop_missing_separator_panics (parseValue integerLiteral 1) 0 ∅
           {| input := {| Buffer.buf := bytes "{1 2}"; Buffer.off := 2;
                          Buffer.lastRead := Buffer.opInvalid |};
              currentToken := EmptyString |}
           {| input := {| Buffer.buf := bytes "{1 2}"; Buffer.off := 4;
                          Buffer.lastRead := Buffer.opInvalid |};
              currentToken := EmptyString |} true).
  - discriminate.
  - reflexivity.
  - discriminate.
Defined.

(** * More of the lexer and the parser *)

(** ** The scans that reach the end of the input *)

Lemma Len_String b : Buffer.Len b = Z.of_nat (length (Buffer.String b)).
Proof. unfold Buffer.Len, Buffer.String. rewrite length_drop. reflexivity. Qed.

(** Whitespace up to the end of the input is consumed whole. *)
Lemma skipLoop_all ws : forall n seen lr tok,
  forallb isWhitespace ws = true -> (length ws <= n)%nat ->
  exists lr',
    skipLoop n (mkParser (cursor seen ws lr) tok)
    = (Return tt, mkParser (cursor (seen ++ ws) [] lr') tok).
Proof.
  induction ws as [|w ws IH]; intros n seen lr tok Hws Hn.
  - exists lr. rewrite app_nil_r. destruct n as [|n]; [reflexivity|].
    simpl skipLoop. run. rewrite Len_cursor. reflexivity.
  - destruct n as [|n]; [simpl in Hn; lia|].
    simpl in Hws. apply andb_prop in Hws as [Hw Hws].
    destruct (IH n (seen ++ [w]) Buffer.opRead tok Hws) as [lr' Hrec];
      [simpl in Hn; lia|].
    exists lr'. simpl skipLoop. run. rewrite Len_cursor. more_input. run.
    rewrite Next1_cursor. run. rewrite Hw. run. rewrite Hrec.
    rewrite <- app_assoc. reflexivity.
Qed.

Lemma skipWhitespaces_all ws seen lr tok :
  forallb isWhitespace ws = true ->
  exists lr',
    skipWhitespaces (mkParser (cursor seen ws lr) tok)
    = (Return tt, mkParser (cursor (seen ++ ws) [] lr') tok).
Proof.
  intros Hws. unfold skipWhitespaces. run. rewrite Len_cursor, Nat2Z.id.
  apply skipLoop_all; [exact Hws | lia].
Qed.

(** A string scan that meets no quote reads to the end and stores
    nothing. *)
Lemma stringLoop_open s : forall n seen lr tok start,
  forallb notQuote s = true -> (length s <= n)%nat ->
  exists lr',
    stringLoop start n (mkParser (cursor seen s lr) tok)
    = (Return tt, mkParser (cursor (seen ++ s) [] lr') tok).
Proof.
  induction s as [|x s IH]; intros n seen lr tok start Hs Hn.
  - exists lr. rewrite app_nil_r. destruct n as [|n]; [reflexivity|].
    simpl stringLoop. run. rewrite Len_cursor. reflexivity.
  - destruct n as [|n]; [simpl in Hn; lia|].
    simpl in Hs. apply andb_prop in Hs as [Hx Hs].
    destruct (IH n (seen ++ [x]) Buffer.opRead tok start Hs) as [lr' Hrec];
      [simpl in Hn; lia|].
    exists lr'. simpl stringLoop. run. rewrite Len_cursor. more_input. run.
    rewrite Next1_cursor. run.
    unfold notQuote in Hx. apply negb_true_iff in Hx. rewrite Hx, Hrec.
    rewrite <- app_assoc. reflexivity.
Qed.

(** A numeric scan that meets no byte outside the set reads to the end and
    stores nothing. *)
Lemma numberLoop_open span : forall n seen lr tok start,
  forallb isNumeric span = true -> (length span <= n)%nat ->
  exists lr',
    numberLoop start n (mkParser (cursor seen span lr) tok)
    = (Return tt, mkParser (cursor (seen ++ span) [] lr') tok).
Proof.
  induction span as [|x span IH]; intros n seen lr tok start Hs Hn.
  - exists lr. rewrite app_nil_r. destruct n as [|n]; [reflexivity|].
    simpl numberLoop. run. rewrite Len_cursor. reflexivity.
  - destruct n as [|n]; [simpl in Hn; lia|].
    simpl in Hs. apply andb_prop in Hs as [Hx Hs].
    destruct (IH n (seen ++ [x]) Buffer.opRead tok start Hs) as [lr' Hrec];
      [simpl in Hn; lia|].
    exists lr'. simpl numberLoop. run. rewrite Len_cursor. more_input. run.
    rewrite Next1_cursor. run. rewrite Hx. run. rewrite Hrec.
    rewrite <- app_assoc. reflexivity.
Qed.

(** ** The unread bytes, split as the lexer reads them *)

Lemma skipWs_split u :
  exists ws,
    u = ws ++ skipWs u /\ forallb isWhitespace ws = true
    /\ match skipWs u with [] => True | c :: _ => isWhitespace c = false end.
Proof.
  induction u as [|c u IH]; [exists []; repeat split|].
  destruct IH as (ws & Hu & Hws & Hhd). simpl. destruct (isWhitespace c) eqn:Hc.
  - exists (c :: ws). simpl. rewrite Hc, Hws, <- Hu. repeat split. exact Hhd.
  - exists []. simpl. repeat split. exact Hc.
Qed.

Lemma afterQuote_Some r r' :
  afterQuote r = Some r' ->
  exists s, r = s ++ quote :: r' /\ forallb notQuote s = true.
Proof.
  revert r'. induction r as [|c r IH]; intros r' H; [discriminate|].
  simpl in H. destruct (Ascii.eqb c quote) eqn:Hc.
  - injection H as <-. apply Ascii.eqb_eq in Hc as ->. exists [].
    split; reflexivity.
  - destruct (IH r' H) as (s & -> & Hs). exists (c :: s). simpl.
    unfold notQuote at 1. rewrite Hc, Hs. split; reflexivity.
Qed.

Lemma afterQuote_None r : afterQuote r = None -> forallb notQuote r = true.
Proof.
  induction r as [|c r IH]; [reflexivity|]. simpl. unfold notQuote at 1.
  destruct (Ascii.eqb c quote); [discriminate|]. exact IH.
Qed.

Lemma afterNumeric_split r :
  exists span,
    r = span ++ afterNumeric r /\ forallb isNumeric span = true
    /\ match afterNumeric r with [] => True | d :: _ => isNumeric d = false end.
Proof.
  induction r as [|c r IH]; [exists []; repeat split|].
  destruct IH as (span & Hr & Hspan & Hhd). simpl. destruct (isNumeric c) eqn:Hc.
  - exists (c :: span). simpl. rewrite Hc, Hspan, <- Hr. repeat split.
    exact Hhd.
  - exists []. simpl. repeat split. exact Hc.
Qed.

(** ** [readNextToken] is [lexSpec] *)

Lemma literal_cursor (k : nat) lit seen r lr tok :
  (0 < k)%nat ->
  exists seen' lr',
    literal (Z.of_nat k) lit (mkParser (cursor seen r lr) tok)
    = (fst (fst (literalSpec k lit r tok)),
       mkParser (cursor seen' (snd (fst (literalSpec k lit r tok))) lr')
         (snd (literalSpec k lit r tok))).
Proof.
  intros Hk. rewrite literal_run. cbn [input currentToken]. rewrite Len_cursor.
  unfold literalSpec.
  destruct (Nat.leb_spec k (length r)) as [Hle | Hgt].
  - replace (Z.of_nat k <=? Z.of_nat (length r)) with true
      by (symmetry; apply Z.leb_le; lia).
    replace (cursor seen r lr) with (cursor seen (take k r ++ drop k r) lr)
      by (rewrite take_drop; reflexivity).
    rewrite Next_cursor by (rewrite ?length_take; lia). cbn [fst snd].
    destruct (String.eqb (gostring (take k r)) lit); cbn [fst snd];
      eauto.
  - replace (Z.of_nat k <=? Z.of_nat (length r)) with false
      by (symmetry; apply Z.leb_gt; lia).
    cbn [fst snd]. eauto.
Qed.

Lemma readNextToken_cursor seen u lr tok :
  exists seen' lr',
    readNextToken (mkParser (cursor seen u lr) tok)
    = (fst (fst (lexSpec u tok)),
       mkParser (cursor seen' (snd (fst (lexSpec u tok))) lr')
         (snd (lexSpec u tok))).
Proof.
  destruct (skipWs_split u) as (ws & Hu & Hws & Hhd). unfold lexSpec.
  destruct (skipWs u) as [|c r].
  { (* nothing but whitespace *)
    rewrite app_nil_r in Hu. subst u.
    destruct (skipWhitespaces_all ws seen lr tok Hws) as [lr' Hskip].
    exists (seen ++ ws), lr'. unfold readNextToken.
    unfold mbind at 1 2, Parse_bind at 1 2, bind at 1 2. rewrite Hskip.
    unfold inputLen at 1. cbn [input]. rewrite Len_cursor. reflexivity. }
  rewrite Hu. clear Hu u.
  destruct (isStructural c) eqn:Hst.
  { rewrite readNextToken_switch, Hst by assumption. eauto. }
  destruct (Ascii.eqb c "n") eqn:Hn.
  { rewrite readNextToken_switch, Hst, Hn by assumption.
    apply (literal_cursor 4). lia. }
  destruct (Ascii.eqb c "t") eqn:Ht.
  { rewrite readNextToken_switch, Hst, Hn, Ht by assumption.
    apply (literal_cursor 4). lia. }
  destruct (Ascii.eqb c "f") eqn:Hf.
  { rewrite readNextToken_switch, Hst, Hn, Ht, Hf by assumption.
    apply (literal_cursor 5). lia. }
  destruct (Ascii.eqb c quote) eqn:Hq.
  { apply Ascii.eqb_eq in Hq as ->.
    destruct (afterQuote r) as [r'|] eqn:Hr.
    - destruct (afterQuote_Some r r' Hr) as (s & -> & Hs).
      rewrite readNextToken_string_closed by assumption. eauto.
    - apply afterQuote_None in Hr.
      rewrite readNextToken_switch by assumption.
      cbn [isStructural Ascii.eqb Bool.eqb orb quote]. fold quote.
      unfold mbind at 1 2, Parse_bind at 1 2, bind at 1 2, inputLen at 1.
      cbn [input]. rewrite Len_cursor, Nat2Z.id.
      destruct (stringLoop_open r (length r) (seen ++ ws ++ [quote])
                  Buffer.opRead tok (Z.of_nat (length r)) Hr) as [lr' ->];
        [lia|].
      eauto. }
  assert (Hc : startsNumber c = true).
  { unfold startsNumber. rewrite Hhd, Hst, Hn, Ht, Hf, Hq. reflexivity. }
  destruct (afterNumeric_split r) as (span & Hr & Hspan & Hd).
  destruct r as [|d r0].
  { rewrite readNextToken_switch, Hst, Hn, Ht, Hf, Hq by assumption.
    unfold mbind at 1 2, Parse_bind at 1 2, bind at 1 2, inputLen at 1.
    cbn [input]. rewrite Len_cursor. eauto. }
  destruct (afterNumeric (d :: r0)) as [|d' r'] eqn:Hafter.
  - (* the scan reaches the end of the input *)
    rewrite app_nil_r in Hr. rewrite <- Hr in Hspan.
    assert (Hdnum : isNumeric d = true).
    { simpl in Hspan. apply andb_prop in Hspan as [H _]. exact H. }
    rewrite Hdnum.
    rewrite readNextToken_switch, Hst, Hn, Ht, Hf, Hq by assumption.
    unfold mbind at 1 2, Parse_bind at 1 2, bind at 1 2, inputLen at 1.
    cbn [input]. rewrite Len_cursor, Nat2Z.id.
    destruct (numberLoop_open (d :: r0) (length (d :: r0))
                (seen ++ ws ++ [c]) Buffer.opRead tok
                (Z.of_nat (length (d :: r0))) Hspan) as [lr' ->]; [lia|].
    eauto.
  - (* the scan stops at [d'] *)
    rewrite Hr. rewrite readNextToken_number by assumption. cbv zeta.
    destruct span as [|x span].
    + simpl in Hr. injection Hr as -> ->. rewrite Hd. eauto.
    + simpl in Hr. injection Hr as -> _. simpl in Hspan.
      apply andb_prop in Hspan as [Hx _]. rewrite Hx.
      destruct (afterNumeric ((x :: span) ++ d' :: r')) eqn:E; eauto.
Qed.

(** The same on any state. *)
Lemma readNextToken_refines p :
  fst (readNextToken p)
  = fst (fst (lexSpec (Buffer.String (input p)) (currentToken p)))
  /\ Buffer.String (input (snd (readNextToken p)))
     = snd (fst (lexSpec (Buffer.String (input p)) (currentToken p)))
  /\ currentToken (snd (readNextToken p))
     = snd (lexSpec (Buffer.String (input p)) (currentToken p)).
Proof.
  destruct (Buffer.String (input p)) as [|c rest] eqn:Hu.
  - rewrite readNextToken_exhausted by (rewrite Len_String, Hu; reflexivity).
    cbn [fst snd lexSpec skipWs]. repeat split; assumption.
  - destruct (readNextToken_cursor
                (take (Buffer.off (input p)) (Buffer.buf (input p)))
                (c :: rest) (Buffer.lastRead (input p)) (currentToken p))
      as (seen' & lr' & Hread).
    rewrite <- (parser_of_unread p c rest Hu) in Hread. rewrite Hread.
    cbn [fst snd input currentToken]. rewrite String_cursor. repeat split.
Qed.

Lemma skipWs_app ws u :
  forallb isWhitespace ws = true -> skipWs (ws ++ u) = skipWs u.
Proof.
  induction ws as [|w ws IH]; [reflexivity|]. simpl. intros H.
  apply andb_prop in H as [-> H]. apply IH. exact H.
Qed.

Lemma skipWs_whitespace ws :
  forallb isWhitespace ws = true -> skipWs ws = [].
Proof.
  intros H. rewrite <- (app_nil_r ws). rewrite skipWs_app by exact H.
  reflexivity.
Qed.

Lemma skipWs_suffix u : skipWs u `suffix_of` u.
Proof.
  induction u as [|c u IH]; [reflexivity|]. simpl.
  destruct (isWhitespace c); [apply suffix_cons_r; exact IH | reflexivity].
Qed.

Lemma isStructural_inv c :
  isStructural c = true ->
  c ∈ ["{"; "}"; "["; "]"; ":"; ","]%char.
Proof.
  unfold isStructural. intros H.
  repeat (apply orb_prop in H as [H | H]); apply Ascii.eqb_eq in H as ->;
    rewrite !elem_of_cons; tauto.
Qed.

Lemma isStructural_not_whitespace c :
  isStructural c = true -> isWhitespace c = false.
Proof.
  intros H. apply isStructural_inv in H.
  rewrite !elem_of_cons, elem_of_nil in H.
  destruct H as [-> | [-> | [-> | [-> | [-> | [-> | []]]]]]]; reflexivity.
Qed.

(** ** What the lexer does, case by case *)

(** X3.  [skipWhitespaces] always returns; it consumes the leading spaces,
    line feeds, carriage returns and tabs, leaves every byte from the first
    other one unread, and does not touch [currentToken]. *)
Theorem skipWhitespaces_skips_leading_whitespace p :
  fst (skipWhitespaces p) = Return tt
  /\ Buffer.String (input (snd (skipWhitespaces p)))
     = skipWs (Buffer.String (input p))
  /\ currentToken (snd (skipWhitespaces p)) = currentToken p.
Proof.
  split; [|split; [|apply skipWhitespaces_token]].
  - destruct (Buffer.String (input p)) as [|c rest] eqn:Hu.
    + rewrite skipWhitespaces_exhausted
        by (rewrite Len_String, Hu; reflexivity).
      reflexivity.
    + rewrite (parser_of_unread p c rest Hu).
      destruct (skipWs_split (c :: rest)) as (ws & Hsplit & Hws & Hhd).
      rewrite Hsplit. destruct (skipWs (c :: rest)) as [|c' r].
      * rewrite app_nil_r.
        destruct (skipWhitespaces_all ws
                    (take (Buffer.off (input p)) (Buffer.buf (input p)))
                    (Buffer.lastRead (input p)) (currentToken p) Hws)
          as [lr' ->].
        reflexivity.
      * rewrite skipWhitespaces_stops by assumption. reflexivity.
  - destruct (Buffer.String (input p)) as [|c rest] eqn:Hu.
    + rewrite skipWhitespaces_exhausted
        by (rewrite Len_String, Hu; reflexivity).
      exact Hu.
    + rewrite (parser_of_unread p c rest Hu) at 1.
      destruct (skipWs_split (c :: rest)) as (ws & Hsplit & Hws & Hhd).
      rewrite Hsplit at 1. destruct (skipWs (c :: rest)) as [|c' r].
      * rewrite app_nil_r.
        destruct (skipWhitespaces_all ws
                    (take (Buffer.off (input p)) (Buffer.buf (input p)))
                    (Buffer.lastRead (input p)) (currentToken p) Hws)
          as [lr' ->].
        cbn [snd input]. apply String_cursor.
      * rewrite skipWhitespaces_stops by assumption.
        cbn [snd input]. apply String_cursor.
Qed.

(** X4.  [readNextToken] is a function of the unread bytes and of the token
    it finds: its outcome, the bytes it leaves unread and the token it
    leaves are those of [lexSpec]. *)
Theorem readNextToken_is_lexSpec p :
  let '(r, u, tok) := lexSpec (Buffer.String (input p)) (currentToken p) in
  fst (readNextToken p) = r
  /\ Buffer.String (input (snd (readNextToken p))) = u
  /\ currentToken (snd (readNextToken p)) = tok.
Proof.
  destruct (readNextToken_refines p) as (Hr & Hu & Htok).
  destruct (lexSpec (Buffer.String (input p)) (currentToken p)) as [[r u] tok].
  cbn [fst snd] in *. repeat split; assumption.
Qed.

(** X5.  When the next byte after the whitespace is one of the six
    structural bytes, [readNextToken] returns [true], stores that byte as
    the token and leaves the bytes after it unread. *)
Theorem readNextToken_structural p ws c rest :
  forallb isWhitespace ws = true -> isStructural c = true ->
  Buffer.String (input p) = ws ++ c :: rest ->
  fst (readNextToken p) = Return true
  /\ currentToken (snd (readNextToken p)) = gostring [c]
  /\ Buffer.String (input (snd (readNextToken p))) = rest.
Proof.
  intros Hws Hc Hin. destruct (readNextToken_refines p) as (Hr & Hu & Htok).
  rewrite Hin in Hr, Hu, Htok. unfold lexSpec in Hr, Hu, Htok.
  rewrite skipWs_app in Hr, Hu, Htok by exact Hws.
  simpl skipWs in Hr, Hu, Htok.
  rewrite (isStructural_not_whitespace c Hc), Hc in Hr, Hu, Htok.
  repeat split; assumption.
Qed.

Lemma readNextToken_structural_witness :
  fst (readNextToken (NewJSONParser (bytes "  : 1"))) = Return true
  /\ currentToken (snd (readNextToken (NewJSONParser (bytes "  : 1"))))
     = gostring [":"%char]
  /\ Buffer.String (input (snd (readNextToken (NewJSONParser (bytes "  : 1")))))
     = bytes " 1".
Proof.
  apply (readNextToken_structural (NewJSONParser (bytes "  : 1"))
           (bytes "  ") ":" (bytes " 1")); reflexivity.
Defined.

(** X6.  When nothing but whitespace is left (the empty input included),
    [readNextToken] returns [false], leaves [currentToken] as it was and the
    input exhausted. *)
Theorem readNextToken_end_of_input p :
  forallb isWhitespace (Buffer.String (input p)) = true ->
  fst (readNextToken p) = Return false
  /\ currentToken (snd (readNextToken p)) = currentToken p
  /\ Buffer.String (input (snd (readNextToken p))) = [].
Proof.
  intros Hws. destruct (readNextToken_refines p) as (Hr & Hu & Htok).
  unfold lexSpec in Hr, Hu, Htok.
  rewrite (skipWs_whitespace _ Hws) in Hr, Hu, Htok.
  repeat split; assumption.
Qed.

Lemma readNextToken_end_of_input_witness :
  fst (readNextToken (NewJSONParser (bytes "   "))) = Return false
  /\ currentToken (snd (readNextToken (NewJSONParser (bytes "   "))))
     = currentToken (NewJSONParser (bytes "   "))
  /\ Buffer.String (input (snd (readNextToken (NewJSONParser (bytes "   ")))))
     = [].
Proof.
  apply (readNextToken_end_of_input (NewJSONParser (bytes "   "))).
  reflexivity.
Defined.

Lemma lexSpec_literal ws c k lit r tok :
  (c, k, lit) ∈ literalCases -> forallb isWhitespace ws = true ->
  lexSpec (ws ++ c :: r) tok = literalSpec k lit r tok.
Proof.
  intros Hcase Hws. unfold lexSpec. rewrite skipWs_app by exact Hws.
  unfold literalCases in Hcase. rewrite !elem_of_cons, elem_of_nil in Hcase.
  destruct Hcase as [[= -> -> ->] | [[= -> -> ->] | [[= -> -> ->] | []]]];
    reflexivity.
Qed.

Lemma gostring_eqb_bytes l s :
  String.eqb (gostring l) s = true <-> l = bytes s.
Proof.
  unfold gostring, bytes. rewrite String.eqb_eq. split; intros H.
  - rewrite <- H. symmetry. apply list_ascii_of_string_of_list_ascii.
  - subst l. apply string_of_list_ascii_of_string.
Qed.

(** X7.  The literal cases accept the name after the byte that selects the
    case: after [n] the four bytes [null], after [t] the four bytes [true],
    after [f] the five bytes [false].  The call then returns [true], stores
    the name and leaves the bytes after it unread. *)
Theorem readNextToken_accepts_doubled_literal p ws c k lit rest :
  (c, k, lit) ∈ literalCases -> forallb isWhitespace ws = true ->
  Buffer.String (input p) = ws ++ c :: bytes lit ++ rest ->
  fst (readNextToken p) = Return true
  /\ currentToken (snd (readNextToken p)) = lit
  /\ Buffer.String (input (snd (readNextToken p))) = rest.
Proof.
  intros Hcase Hws Hin. destruct (readNextToken_refines p) as (Hr & Hu & Htok).
  rewrite Hin, (lexSpec_literal ws c k lit) in Hr, Hu, Htok by assumption.
  unfold literalCases in Hcase. rewrite !elem_of_cons, elem_of_nil in Hcase.
  destruct Hcase as [[= -> -> ->] | [[= -> -> ->] | [[= -> -> ->] | []]]];
    repeat split; assumption.
Qed.

Lemma readNextToken_accepts_doubled_literal_witness :
  fst (readNextToken (NewJSONParser (bytes " ttrue]"))) = Return true
  /\ currentToken (snd (readNextToken (NewJSONParser (bytes " ttrue]"))))
     = "true"
  /\ Buffer.String
       (input (snd (readNextToken (NewJSONParser (bytes " ttrue]")))))
     = bytes "]".
Proof.
  apply (readNextToken_accepts_doubled_literal
           (NewJSONParser (bytes " ttrue]")) (bytes " ") "t" 4%nat "true"
           (bytes "]")).
  - apply elem_of_cons. right. apply elem_of_cons. left. reflexivity.
  - reflexivity.
  - reflexivity.
Defined.

(** X8.  A literal case that does not find its name returns [false] and
    leaves [currentToken] as it was, but the bytes it compared are gone:
    when at least as many bytes as the name has follow the first byte they
    are all consumed; when fewer follow, only the first byte is. *)
Theorem readNextToken_failed_literal_consumes p ws c k lit r :
  (c, k, lit) ∈ literalCases -> forallb isWhitespace ws = true ->
  Buffer.String (input p) = ws ++ c :: r ->
  take k r <> bytes lit ->
  fst (readNextToken p) = Return false
  /\ currentToken (snd (readNextToken p)) = currentToken p
  /\ Buffer.String (input (snd (readNextToken p)))
     = if (k <=? length r)%nat then drop k r else r.
Proof.
  intros Hcase Hws Hin Hne.
  destruct (readNextToken_refines p) as (Hr & Hu & Htok).
  rewrite Hin, (lexSpec_literal ws c k lit) in Hr, Hu, Htok by assumption.
  unfold literalSpec in Hr, Hu, Htok.
  assert (Heqb : String.eqb (gostring (take k r)) lit = false).
  { apply not_true_is_false. rewrite gostring_eqb_bytes. exact Hne. }
  rewrite Heqb in Hr, Hu, Htok.
  destruct (k <=? length r)%nat; repeat split; assumption.
Qed.

Lemma readNextToken_failed_literal_consumes_witness :
  fst (readNextToken (NewJSONParser (bytes "false,1"))) = Return false
  /\ currentToken (snd (readNextToken (NewJSONParser (bytes "false,1"))))
     = currentToken (NewJSONParser (bytes "false,1"))
  /\ Buffer.String
       (input (snd (readNextToken (NewJSONParser (bytes "false,1")))))
     = bytes "1".
Proof.
  apply (readNextToken_failed_literal_consumes
           (NewJSONParser (bytes "false,1")) [] "f" 5%nat "false"
           (bytes "alse,1")).
  - apply elem_of_cons. right. apply elem_of_cons. right.
    apply elem_of_cons. left. reflexivity.
  - reflexivity.
  - reflexivity.
  - discriminate.
Defined.

Lemma afterQuote_open s : forallb notQuote s = true -> afterQuote s = None.
Proof.
  induction s as [|x s IH]; [reflexivity|]. simpl. unfold notQuote at 1.
  intros H. apply andb_prop in H as [Hx H]. apply negb_true_iff in Hx.
  rewrite Hx. apply IH. exact H.
Qed.

Lemma afterNumeric_app span u :
  forallb isNumeric span = true -> afterNumeric (span ++ u) = afterNumeric u.
Proof.
  induction span as [|x span IH]; [reflexivity|]. simpl. intros H.
  apply andb_prop in H as [-> H]. apply IH. exact H.
Qed.

Lemma lexSpec_default ws c r tok :
  forallb isWhitespace ws = true -> startsNumber c = true ->
  lexSpec (ws ++ c :: r) tok
  = match r with
    | [] => (Return true, [], tok)
    | d :: _ =>
        if isNumeric d then
          match afterNumeric r with
          | [] => (Return true, [], tok)
          | u' => (Panic SliceBoundsOutOfRange, u', tok)
          end
        else (Return true, r, EmptyString)
    end.
Proof.
  intros Hws Hc. unfold startsNumber in Hc. apply negb_true_iff in Hc.
  do 5 (apply orb_false_elim in Hc as [Hc ?]).
  unfold lexSpec. rewrite skipWs_app by exact Hws. simpl skipWs. rewrite Hc.
  repeat match goal with H : _ = false |- _ => rewrite H; clear H end.
  reflexivity.
Qed.

(** X9.  A string that is not closed before the end of the input is not an
    error for the lexer: [readNextToken] returns [true], with the input
    exhausted and [currentToken] still what it was before the call. *)
Theorem readNextToken_unterminated_string p ws s :
  forallb isWhitespace ws = true -> forallb notQuote s = true ->
  Buffer.String (input p) = ws ++ quote :: s ->
  fst (readNextToken p) = Return true
  /\ currentToken (snd (readNextToken p)) = currentToken p
  /\ Buffer.String (input (snd (readNextToken p))) = [].
Proof.
  intros Hws Hs Hin. destruct (readNextToken_refines p) as (Hr & Hu & Htok).
  rewrite Hin in Hr, Hu, Htok. unfold lexSpec in Hr, Hu, Htok.
  rewrite skipWs_app in Hr, Hu, Htok by exact Hws.
  simpl in Hr, Hu, Htok. rewrite (afterQuote_open s Hs) in Hr, Hu, Htok.
  repeat split; assumption.
Qed.

Lemma readNextToken_unterminated_string_witness :
  fst (readNextToken (NewJSONParser (quote :: bytes "abc"))) = Return true
  /\ currentToken (snd (readNextToken (NewJSONParser (quote :: bytes "abc"))))
     = currentToken (NewJSONParser (quote :: bytes "abc"))
  /\ Buffer.String
       (input (snd (readNextToken (NewJSONParser (quote :: bytes "abc")))))
     = [].
Proof.
  apply (readNextToken_unterminated_string
           (NewJSONParser (quote :: bytes "abc")) [] (bytes "abc"));
    reflexivity.
Defined.

(** X10.  A numeric scan that runs to the end of the input stores nothing:
    [readNextToken] returns [true], with the input exhausted and
    [currentToken] still what it was before the call. *)
Theorem readNextToken_number_at_end_of_input p ws c span :
  forallb isWhitespace ws = true -> startsNumber c = true ->
  forallb isNumeric span = true ->
  Buffer.String (input p) = ws ++ c :: span ->
  fst (readNextToken p) = Return true
  /\ currentToken (snd (readNextToken p)) = currentToken p
  /\ Buffer.String (input (snd (readNextToken p))) = [].
Proof.
  intros Hws Hc Hspan Hin.
  destruct (readNextToken_refines p) as (Hr & Hu & Htok).
  rewrite Hin, lexSpec_default in Hr, Hu, Htok by assumption.
  destruct span as [|d span]; [repeat split; assumption|].
  pose proof (afterNumeric_app (d :: span) [] Hspan) as Hafter.
  rewrite app_nil_r in Hafter. simpl in Hspan.
  apply andb_prop in Hspan as [Hd _].
  rewrite Hd, Hafter in Hr, Hu, Htok. repeat split; assumption.
Qed.

Lemma readNextToken_number_at_end_of_input_witness :
  fst (readNextToken (NewJSONParser (bytes "30"))) = Return true
  /\ currentToken (snd (readNextToken (NewJSONParser (bytes "30"))))
     = currentToken (NewJSONParser (bytes "30"))
  /\ Buffer.String (input (snd (readNextToken (NewJSONParser (bytes "30")))))
     = [].
Proof.
  apply (readNextToken_number_at_end_of_input
           (NewJSONParser (bytes "30")) [] "3" (bytes "0")); reflexivity.
Defined.

(** X11.  When the byte after the first byte of a number is outside the
    numeric set, [readNextToken] returns [true] and the token it stores is
    the empty string, whatever the first byte was; the bytes after the first
    one stay unread. *)
Theorem readNextToken_one_byte_number p ws c d rest :
  forallb isWhitespace ws = true -> startsNumber c = true ->
  isNumeric d = false ->
  Buffer.String (input p) = ws ++ c :: d :: rest ->
  fst (readNextToken p) = Return true
  /\ currentToken (snd (readNextToken p)) = EmptyString
  /\ Buffer.String (input (snd (readNextToken p))) = d :: rest.
Proof.
  intros Hws Hc Hd Hin.
  destruct (readNextToken_refines p) as (Hr & Hu & Htok).
  rewrite Hin, lexSpec_default, Hd in Hr, Hu, Htok by assumption.
  repeat split; assumption.
Qed.

Lemma readNextToken_one_byte_number_witness :
  fst (readNextToken (NewJSONParser (bytes "7,"))) = Return true
  /\ currentToken (snd (readNextToken (NewJSONParser (bytes "7,"))))
     = EmptyString
  /\ Buffer.String (input (snd (readNextToken (NewJSONParser (bytes "7,")))))
     = bytes ",".
Proof.
  apply (readNextToken_one_byte_number
           (NewJSONParser (bytes "7,")) [] "7" "," []); reflexivity.
Defined.

(** X12.  A number of two bytes or more that is followed by a byte outside
    the numeric set makes [readNextToken] panic in the slice expression of
    line 74, with [currentToken] as it was before the call. *)
Theorem readNextToken_long_number_panics p ws c x span d rest :
  forallb isWhitespace ws = true -> startsNumber c = true ->
  isNumeric x = true -> forallb isNumeric span = true ->
  isNumeric d = false ->
  Buffer.String (input p) = ws ++ c :: x :: span ++ d :: rest ->
  fst (readNextToken p) = Panic SliceBoundsOutOfRange
  /\ currentToken (snd (readNextToken p)) = currentToken p.
Proof.
  intros Hws Hc Hx Hspan Hd Hin.
  destruct (readNextToken_refines p) as (Hr & _ & Htok).
  rewrite Hin, lexSpec_default, Hx in Hr, Htok by assumption.
  assert (Hafter : afterNumeric (x :: span ++ d :: rest) = d :: rest).
  { change (afterNumeric ((x :: span) ++ d :: rest) = d :: rest).
    rewrite afterNumeric_app by (simpl; rewrite Hx; exact Hspan).
    simpl. rewrite Hd. reflexivity. }
  rewrite Hafter in Hr, Htok. split; assumption.
Qed.

Lemma readNextToken_long_number_panics_witness :
  fst (readNextToken (NewJSONParser (bytes "30,")))
  = Panic SliceBoundsOutOfRange
  /\ currentToken (snd (readNextToken (NewJSONParser (bytes "30,"))))
     = currentToken (NewJSONParser (bytes "30,")).
Proof.
  apply (readNextToken_long_number_panics
           (NewJSONParser (bytes "30,")) [] "3" "0" [] "," []); reflexivity.
Defined.

Lemma lexSpec_token u tok :
  snd (lexSpec u tok) = tok \/ snd (lexSpec u tok) ∈ lexTokens.
Proof.
  unfold lexSpec, literalSpec, lexTokens. destruct (skipWs u) as [|c r]; [auto|].
  destruct (isStructural c) eqn:Hst.
  { right. apply isStructural_inv in Hst.
    rewrite !elem_of_cons, elem_of_nil in Hst.
    destruct Hst as [-> | [-> | [-> | [-> | [-> | [-> | []]]]]]];
      cbn [snd gostring string_of_list_ascii]; rewrite !elem_of_cons; tauto. }
  repeat match goal with
         | |- context [if ?b then _ else _] => destruct b
         | |- context [match ?x with _ => _ end] => destruct x
         end;
    cbn [snd]; rewrite ?elem_of_cons; tauto.
Qed.

(** X13.  [readNextToken] either leaves [currentToken] as it was or stores
    one of ten strings: a structural byte, [null], [true], [false] or the
    empty string.  The text of a quoted string and the digits of a number
    are never stored. *)
Theorem readNextToken_token_alphabet p :
  currentToken (snd (readNextToken p)) = currentToken p
  \/ currentToken (snd (readNextToken p)) ∈ lexTokens.
Proof.
  destruct (readNextToken_refines p) as (_ & _ & ->). apply lexSpec_token.
Qed.

Lemma afterQuote_suffix r r' : afterQuote r = Some r' -> r' `suffix_of` r.
Proof.
  intros H. destruct (afterQuote_Some r r' H) as (s & -> & _).
  apply suffix_app_r, suffix_cons_r. reflexivity.
Qed.

Lemma afterNumeric_suffix r : afterNumeric r `suffix_of` r.
Proof.
  destruct (afterNumeric_split r) as (span & Hr & _). rewrite Hr at 2.
  apply suffix_app_r. reflexivity.
Qed.

Lemma lexSpec_suffix u tok : snd (fst (lexSpec u tok)) `suffix_of` u.
Proof.
  unfold lexSpec, literalSpec. pose proof (skipWs_suffix u) as Hskip.
  destruct (skipWs u) as [|c r]; [apply suffix_nil|].
  assert (Hr : r `suffix_of` u).
  { etrans; [|exact Hskip]. apply suffix_cons_r. reflexivity. }
  assert (Hdrop : forall k, drop k r `suffix_of` u).
  { intros k. etrans; [apply suffix_drop | exact Hr]. }
  destruct (isStructural c); [exact Hr|].
  destruct (Ascii.eqb c "n");
    [repeat match goal with
            | |- context [if ?b then _ else _] => destruct b
            end; cbn [fst snd]; auto|].
  destruct (Ascii.eqb c "t");
    [repeat match goal with
            | |- context [if ?b then _ else _] => destruct b
            end; cbn [fst snd]; auto|].
  destruct (Ascii.eqb c "f");
    [repeat match goal with
            | |- context [if ?b then _ else _] => destruct b
            end; cbn [fst snd]; auto|].
  destruct (Ascii.eqb c quote).
  { destruct (afterQuote r) as [r'|] eqn:Hq; cbn [fst snd];
      [|apply suffix_nil].
    etrans; [apply afterQuote_suffix; exact Hq | exact Hr]. }
  destruct r as [|d r0]; [apply suffix_nil|].
  destruct (isNumeric d); [|exact Hr].
  pose proof (afterNumeric_suffix (d :: r0)) as Hnum.
  destruct (afterNumeric (d :: r0)); cbn [fst snd]; [apply suffix_nil|].
  etrans; [exact Hnum | exact Hr].
Qed.

(** X14.  [readNextToken] only moves forward: the bytes it leaves unread
    are a suffix of the bytes that were unread before the call. *)
Theorem readNextToken_leaves_suffix p :
  Buffer.String (input (snd (readNextToken p)))
  `suffix_of` Buffer.String (input p).
Proof.
  destruct (readNextToken_refines p) as (_ & -> & _). apply lexSpec_suffix.
Qed.

(** ** Invariants of the parser

    A property [I] of the parser struct that every [readNextToken] keeps is
    kept by [parseValue], and the values returned satisfy [Q] when the
    leaves do and the containers do at the only state where a loop ends,
    the one with [}] as the token. *)
Section ParserInvariant.

Context {float64 : Type} (ParseFloat : string -> option float64).
Variable I : JSONParser -> Prop.
Variable Q : @JSONValue float64 -> Prop.
Variable Mok : gmap string (@JSONValue float64) -> Prop.
Variable Lok : list (@JSONValue float64) -> Prop.

Hypothesis I_read : forall p, I p -> I (snd (readNextToken p)).
Hypothesis Q_literal : forall p,
  I p -> currentToken p ∈ ["null"; "true"; "false"] ->
  Q (mkJSONValue (currentToken p) Nil).
Hypothesis Q_default : forall p,
  I p -> entersDefault (currentToken p) = true ->
  Q (numberOrString ParseFloat (currentToken p)).
Hypothesis Mok_empty : Mok ∅.
Hypothesis Mok_insert : forall p m v,
  I p -> Mok m -> Q v -> Mok (<[currentToken p := v]> m).
Hypothesis Q_object : forall p m,
  I p -> currentToken p = "}" -> Mok m -> Q (mkJSONValue "object" (Map m)).
Hypothesis Lok_empty : Lok [].
Hypothesis Lok_append : forall l v, Lok l -> Q v -> Lok (l ++ [v]).
Hypothesis Q_array : forall p l,
  I p -> currentToken p = "}" -> Lok l -> Q (mkJSONValue "array" (Slice l)).

Lemma objectLoop_keeps pv :
  keeps I Q pv -> forall fuel object, Mok object -> keeps I Q (objectLoop pv fuel object).
Proof.
  intros Hpv fuel. induction fuel as [|fuel IH]; intros object Hobj p Hp.
  { split; [exact Hp | discriminate]. }
  simpl objectLoop. unfold mbind at 1, Parse_bind at 1, bind at 1, getToken at 1.
  destruct (String.eqb (currentToken p) "}") eqn:Htok; cbn [negb].
  { apply String.eqb_eq in Htok. split; [exact Hp|].
    intros v [= <-]. apply (Q_object p); assumption. }
  unfold mbind at 1, Parse_bind at 1, bind at 1.
  pose proof (I_read p Hp) as Hp1.
  destruct (readNextToken p) as [[b | e |] p1]; cbn [snd] in Hp1;
    try (split; [exact Hp1 | discriminate]).
  unfold mbind at 1, Parse_bind at 1, bind at 1, getToken at 1.
  destruct (negb (String.eqb (currentToken p1) ":"));
    [split; [exact Hp1 | discriminate]|].
  unfold mbind at 1, Parse_bind at 1, bind at 1.
  pose proof (I_read p1 Hp1) as Hp2.
  destruct (readNextToken p1) as [[b' | e |] p2]; cbn [snd] in Hp2;
    try (split; [exact Hp2 | discriminate]).
  unfold mbind at 1, Parse_bind at 1, bind at 1.
  destruct (Hpv p2 Hp2) as [Hp3 Hv].
  destruct (pv p2) as [[v | e |] p3]; cbn [fst snd] in Hp3, Hv;
    try (split; [exact Hp3 | discriminate]).
  specialize (Hv v eq_refl).
  unfold mbind at 1, Parse_bind at 1, bind at 1.
  pose proof (I_read p3 Hp3) as Hp4.
  destruct (readNextToken p3) as [[b'' | e |] p4]; cbn [snd] in Hp4;
    try (split; [exact Hp4 | discriminate]).
  apply IH; [|exact Hp4]. apply Mok_insert; auto.
Qed.

Lemma arrayLoop_keeps pv :
  keeps I Q pv -> forall fuel array, Lok array -> keeps I Q (arrayLoop pv fuel array).
Proof.
  intros Hpv fuel. induction fuel as [|fuel IH]; intros array Harr p Hp.
  { split; [exact Hp | discriminate]. }
  simpl arrayLoop. unfold mbind at 1, Parse_bind at 1, bind at 1, getToken at 1.
  destruct (String.eqb (currentToken p) "}") eqn:Htok; cbn [negb].
  { apply String.eqb_eq in Htok. split; [exact Hp|].
    intros v [= <-]. apply (Q_array p); assumption. }
  unfold mbind at 1, Parse_bind at 1, bind at 1.
  destruct (Hpv p Hp) as [Hp1 Hv].
  destruct (pv p) as [[v | e |] p1]; cbn [fst snd] in Hp1, Hv;
    try (split; [exact Hp1 | discriminate]).
  specialize (Hv v eq_refl).
  unfold mbind at 1, Parse_bind at 1, bind at 1.
  pose proof (I_read p1 Hp1) as Hp2.
  destruct (readNextToken p1) as [[b | e |] p2]; cbn [snd] in Hp2;
    try (split; [exact Hp2 | discriminate]).
  apply IH; [|exact Hp2]. apply Lok_append; auto.
Qed.

Lemma valueSwitch_keeps pv fuel :
  keeps I Q pv -> keeps I Q (valueSwitch ParseFloat pv fuel).
Proof.
  intros Hpv p Hp. unfold valueSwitch.
  unfold mbind at 1, Parse_bind at 1, bind at 1, getToken at 1.
  destruct (String.eqb (currentToken p) "null" || String.eqb (currentToken p) "true"
            || String.eqb (currentToken p) "false") eqn:Hlit.
  { split; [exact Hp|]. intros v [= <-].
    apply Q_literal; [exact Hp|].
    repeat (apply orb_prop in Hlit as [Hlit | Hlit]);
      apply String.eqb_eq in Hlit; rewrite Hlit, !elem_of_cons; tauto. }
  destruct (String.eqb (currentToken p) "{") eqn:Hobj.
  { unfold parseObject. unfold mbind at 1, Parse_bind at 1, bind at 1.
    pose proof (I_read p Hp) as Hp1.
    destruct (readNextToken p) as [[b | e |] p1]; cbn [snd] in Hp1;
      try (split; [exact Hp1 | discriminate]).
    apply objectLoop_keeps; assumption. }
  destruct (String.eqb (currentToken p) "[") eqn:Harr.
  { unfold parseArray. unfold mbind at 1, Parse_bind at 1, bind at 1.
    pose proof (I_read p Hp) as Hp1.
    destruct (readNextToken p) as [[b | e |] p1]; cbn [snd] in Hp1;
      try (split; [exact Hp1 | discriminate]).
    apply arrayLoop_keeps; assumption. }
  split; [exact Hp|]. intros v [= <-].
  apply Q_default; [exact Hp|]. unfold entersDefault.
  apply orb_false_elim in Hlit as [Hlit Hfalse].
  apply orb_false_elim in Hlit as [Hnull Htrue].
  rewrite Hnull, Htrue, Hfalse, Hobj, Harr. reflexivity.
Qed.

Lemma parseValue_keeps fuel : keeps I Q (parseValue ParseFloat fuel).
Proof.
  induction fuel as [|fuel IH]; intros p Hp.
  { split; [exact Hp | discriminate]. }
  rewrite parseValue_S. pose proof (I_read p Hp) as Hp1.
  destruct (readNextToken p) as [[b | e |] p1]; cbn [snd] in Hp1;
    try (split; [exact Hp1 | discriminate]).
  apply valueSwitch_keeps; assumption.
Qed.

End ParserInvariant.

(** ** No closing brace, no container *)

Lemma lexSpec_brace u tok :
  snd (lexSpec u tok) = "}" -> tok = "}" \/ "}"%char ∈ u.
Proof.
  unfold lexSpec, literalSpec. pose proof (skipWs_suffix u) as Hskip.
  destruct (skipWs u) as [|c r]; [auto|].
  destruct (isStructural c) eqn:Hst.
  { cbn [snd gostring string_of_list_ascii]. intros [= ->]. right.
    apply (elem_of_suffix _ _ _ (list_elem_of_here _ _) Hskip). }
  repeat match goal with
         | |- context [if ?b then _ else _] => destruct b
         | |- context [match ?x with _ => _ end] => destruct x
         end;
    cbn [snd]; intros H; try discriminate H; auto.
Qed.

Lemma braceFree_not_elem bs : braceFree bs = true -> "}"%char ∉ bs.
Proof.
  unfold braceFree. induction bs as [|c bs IH]; simpl; intros H.
  - apply not_elem_of_nil.
  - apply andb_prop in H as [Hc H]. apply negb_true_iff in Hc.
    apply Ascii.eqb_neq in Hc. apply not_elem_of_cons. split; [congruence|].
    apply IH. exact H.
Qed.

Lemma noBrace_read p : noBrace p -> noBrace (snd (readNextToken p)).
Proof.
  intros [Htok Hin]. destruct (readNextToken_refines p) as (_ & Hu & Ht).
  split.
  - rewrite Ht. intros H. apply lexSpec_brace in H as [H | H]; contradiction.
  - rewrite Hu. intros H. apply Hin.
    apply (elem_of_suffix _ _ _ H (lexSpec_suffix _ _)).
Qed.

Lemma parseValue_noBrace {float64 : Type}
    (ParseFloat : string -> option float64) fuel :
  keeps noBrace (fun v => container v = false) (parseValue ParseFloat fuel).
Proof.
  apply (parseValue_keeps ParseFloat noBrace (fun v => container v = false)
           (fun _ => True) (fun _ => True)); try (intros; exact Logic.I).
  - apply noBrace_read.
  - reflexivity.
  - intros p _ _. unfold numberOrString.
    destruct (ParseFloat (currentToken p)); reflexivity.
  - intros p m [Htok _] H. contradiction.
  - intros p l [Htok _] H. contradiction.
Qed.

Lemma parse_noBrace_leaf {float64 : Type}
    (ParseFloat : string -> option float64) fuel jsonData v :
  braceFree jsonData = true ->
  parse ParseFloat fuel jsonData = Return v -> container v = false.
Proof.
  intros Hfree Hparse.
  destruct (parseValue_noBrace ParseFloat fuel (NewJSONParser jsonData))
    as [_ Hv].
  - split; [discriminate|]. apply braceFree_not_elem. exact Hfree.
  - apply Hv. exact Hparse.
Qed.

(** ** The loops end on a closing brace *)

Section LoopExit.

Context {float64 : Type} (ParseFloat : string -> option float64).
Implicit Types (pv : Parse (@JSONValue float64)) (p : JSONParser).

Lemma valueSwitch_brace pv fuel p :
  currentToken p = "{" ->
  valueSwitch ParseFloat pv fuel p = parseObject pv fuel p.
Proof. unfold valueSwitch. run. intros ->. reflexivity. Qed.

Lemma arrayLoop_returns pv fuel : forall array p v p',
  arrayLoop pv fuel array p = (Return v, p') ->
  currentToken p' = "}"
  /\ exists l, v = mkJSONValue "array" (Slice (array ++ l)).
Proof.
  induction fuel as [|fuel IH]; intros array p v p'; [discriminate|].
  simpl arrayLoop. unfold mbind at 1, Parse_bind at 1, bind at 1, getToken at 1.
  destruct (String.eqb (currentToken p) "}") eqn:Htok; cbn [negb].
  { apply String.eqb_eq in Htok. intros [= <- <-]. split; [exact Htok|].
    exists []. rewrite app_nil_r. reflexivity. }
  unfold mbind at 1, Parse_bind at 1, bind at 1.
  destruct (pv p) as [[v1 | e |] p1]; try discriminate.
  unfold mbind at 1, Parse_bind at 1, bind at 1.
  destruct (readNextToken p1) as [[b | e |] p2]; try discriminate.
  intros H. destruct (IH _ _ _ _ H) as (Hbrace & l & ->).
  split; [exact Hbrace|]. exists (v1 :: l). rewrite <- app_assoc. reflexivity.
Qed.

Lemma objectLoop_returns pv fuel : forall object p v p',
  objectLoop pv fuel object p = (Return v, p') ->
  currentToken p' = "}"
  /\ exists m, v = mkJSONValue "object" (Map m)
               /\ forall k, is_Some (object !! k) -> is_Some (m !! k).
Proof.
  induction fuel as [|fuel IH]; intros object p v p'; [discriminate|].
  simpl objectLoop. unfold mbind at 1, Parse_bind at 1, bind at 1, getToken at 1.
  destruct (String.eqb (currentToken p) "}") eqn:Htok; cbn [negb].
  { apply String.eqb_eq in Htok. intros [= <- <-]. split; [exact Htok|].
    exists object. split; [reflexivity | auto]. }
  unfold mbind at 1, Parse_bind at 1, bind at 1.
  destruct (readNextToken p) as [[b | e |] p1]; try discriminate.
  unfold mbind at 1, Parse_bind at 1, bind at 1, getToken at 1.
  destruct (negb (String.eqb (currentToken p1) ":")); [discriminate|].
  unfold mbind at 1, Parse_bind at 1, bind at 1.
  destruct (readNextToken p1) as [[b' | e |] p2]; try discriminate.
  unfold mbind at 1, Parse_bind at 1, bind at 1.
  destruct (pv p2) as [[v1 | e |] p3]; try discriminate.
  unfold mbind at 1, Parse_bind at 1, bind at 1.
  destruct (readNextToken p3) as [[b'' | e |] p4]; try discriminate.
  intros H. destruct (IH _ _ _ _ H) as (Hbrace & m & -> & Hdom).
  split; [exact Hbrace|]. exists m. split; [reflexivity|].
  intros k Hk. apply Hdom. apply lookup_insert_is_Some.
  destruct (decide (currentToken p = k)); [left; assumption | right; auto].
Qed.

End LoopExit.

(** X15.  [parseArray] returns only in a state whose current token is the
    closing brace, and what it returns is a value of type array. *)
Theorem parseArray_returns_on_closing_brace
    {float64 : Type} (pv : Parse (@JSONValue float64)) (fuel : nat)
    (p p' : JSONParser) (v : @JSONValue float64) :
  parseArray pv fuel p = (Return v, p') ->
  currentToken p' = "}" /\ exists l, v = mkJSONValue "array" (Slice l).
Proof.
  unfold parseArray. unfold mbind at 1, Parse_bind at 1, bind at 1.
  destruct (readNextToken p) as [[b | e |] p1]; try discriminate.
  intros H. apply arrayLoop_returns in H as (Hbrace & l & ->).
  split; [exact Hbrace|]. exists l. reflexivity.
Qed.

Lemma parseArray_returns_on_closing_brace_witness :
  currentToken
    {| input := {| Buffer.buf := bytes "[}"; Buffer.off := 2;
                   Buffer.lastRead := Buffer.opRead |};
       currentToken := "}" |} = "}"
  /\ exists l, mkJSONValue "array" (@Slice Z []) = mkJSONValue "array" (Slice l).
Proof.
  apply (parseArray_returns_on_closing_brace (parseValue integerLiteral 1) 1
           {| input := {| Buffer.buf := bytes "[}"; Buffer.off := 1;
                          Buffer.lastRead := Buffer.opRead |};
              currentToken := "[" |}).
  reflexivity.
Defined.

(** X16.  [parseObject] returns only in a state whose current token is the
    closing brace, and what it returns is a value of type object. *)
Theorem parseObject_returns_on_closing_brace
    {float64 : Type} (pv : Parse (@JSONValue float64)) (fuel : nat)
    (p p' : JSONParser) (v : @JSONValue float64) :
  parseObject pv fuel p = (Return v, p') ->
  currentToken p' = "}" /\ exists m, v = mkJSONValue "object" (Map m).
Proof.
  unfold parseObject. unfold mbind at 1, Parse_bind at 1, bind at 1.
  destruct (readNextToken p) as [[b | e |] p1]; try discriminate.
  intros H. apply objectLoop_returns in H as (Hbrace & m & -> & _).
  split; [exact Hbrace|]. exists m. reflexivity.
Qed.

Lemma parseObject_returns_on_closing_brace_witness :
  currentToken
    {| input := {| Buffer.buf := bytes "{}"; Buffer.off := 2;
                   Buffer.lastRead := Buffer.opRead |};
       currentToken := "}" |} = "}"
  /\ exists m, mkJSONValue "object" (@Map Z ∅) = mkJSONValue "object" (Map m).
Proof.
  apply (parseObject_returns_on_closing_brace (parseValue integerLiteral 1) 1
           {| input := {| Buffer.buf := bytes "{}"; Buffer.off := 1;
                          Buffer.lastRead := Buffer.opRead |};
              currentToken := "{" |}).
  reflexivity.
Defined.

Lemma whitespace_braceFree ws :
  forallb isWhitespace ws = true -> braceFree ws = true.
Proof.
  unfold braceFree. induction ws as [|w ws IH]; [reflexivity|]. simpl.
  intros H. apply andb_prop in H as [Hw H]. rewrite (IH H), andb_true_r.
  unfold isWhitespace in Hw.
  repeat (apply orb_prop in Hw as [Hw | Hw]); apply Ascii.eqb_eq in Hw as ->;
    reflexivity.
Qed.

Lemma braceFree_app l k :
  braceFree l = true -> braceFree k = true -> braceFree (l ++ k) = true.
Proof. unfold braceFree. rewrite forallb_app. intros -> ->. reflexivity. Qed.

(** A read that meets a structural byte, and a read at the end of the
    input, with the state they leave. *)
Lemma readNextToken_structural_run p ws c rest :
  forallb isWhitespace ws = true -> isStructural c = true ->
  Buffer.String (input p) = ws ++ c :: rest ->
  exists p1,
    readNextToken p = (Return true, p1)
    /\ currentToken p1 = gostring [c]
    /\ Buffer.String (input p1) = rest.
Proof.
  intros Hws Hc Hin. destruct (readNextToken_refines p) as (Hr & Hu & Htok).
  rewrite Hin in Hr, Hu, Htok. unfold lexSpec in Hr, Hu, Htok.
  rewrite skipWs_app in Hr, Hu, Htok by exact Hws.
  simpl skipWs in Hr, Hu, Htok.
  rewrite (isStructural_not_whitespace c Hc), Hc in Hr, Hu, Htok.
  destruct (readNextToken p) as [r p1].
  cbn [fst snd] in *. subst r. exists p1. repeat split; assumption.
Qed.

Lemma readNextToken_end_run p :
  forallb isWhitespace (Buffer.String (input p)) = true ->
  exists p1,
    readNextToken p = (Return false, p1)
    /\ currentToken p1 = currentToken p
    /\ Buffer.String (input p1) = [].
Proof.
  intros Hws. destruct (readNextToken_refines p) as (Hr & Hu & Htok).
  unfold lexSpec in Hr, Hu, Htok.
  rewrite (skipWs_whitespace _ Hws) in Hr, Hu, Htok.
  destruct (readNextToken p) as [r p1].
  cbn [fst snd] in *. subst r. exists p1. repeat split; assumption.
Qed.

(** X17.  An input that opens an array or an object and holds no closing
    brace is never parsed: whatever the fuel, [parseValue] does not return
    a value.  Every JSON array that holds no object, and no brace inside
    a string, is such an input. *)
Theorem parse_open_container_without_brace_never_returns
    {float64 : Type} (ParseFloat : string -> option float64)
    (fuel : nat) (ws : list byte) (c : byte) (rest : list byte)
    (v : @JSONValue float64) :
  forallb isWhitespace ws = true -> c = "["%char \/ c = "{"%char ->
  braceFree rest = true ->
  parse ParseFloat fuel (ws ++ c :: rest) <> Return v.
Proof.
  intros Hws Hc Hfree Hparse.
  assert (Hleaf : container v = false).
  { apply (parse_noBrace_leaf ParseFloat fuel (ws ++ c :: rest)); [|exact Hparse].
    apply braceFree_app; [apply whitespace_braceFree; exact Hws|].
    simpl. rewrite Hfree. destruct Hc as [-> | ->]; reflexivity. }
  destruct fuel as [|fuel]; [discriminate|].
  unfold parse in Hparse. rewrite parseValue_S in Hparse.
  destruct (readNextToken_structural_run (NewJSONParser (ws ++ c :: rest))
              ws c rest Hws) as (p1 & Hread & Htok & _);
    [destruct Hc as [-> | ->]; reflexivity | reflexivity |].
  rewrite Hread in Hparse.
  destruct (valueSwitch ParseFloat (parseValue ParseFloat fuel) fuel p1)
    as [r p'] eqn:Hswitch.
  cbn [fst] in Hparse. subst r. destruct Hc as [-> | ->].
  - rewrite valueSwitch_array in Hswitch by exact Htok.
    unfold parseArray in Hswitch.
    unfold mbind at 1, Parse_bind at 1, bind at 1 in Hswitch.
    destruct (readNextToken p1) as [[b | e |] p2]; try discriminate.
    apply arrayLoop_returns in Hswitch as (_ & l & ->). discriminate.
  - rewrite valueSwitch_brace in Hswitch by exact Htok.
    unfold parseObject in Hswitch.
    unfold mbind at 1, Parse_bind at 1, bind at 1 in Hswitch.
    destruct (readNextToken p1) as [[b | e |] p2]; try discriminate.
    apply objectLoop_returns in Hswitch as (_ & m & -> & _). discriminate.
Qed.

Lemma parse_open_container_without_brace_never_returns_witness :
  parse integerLiteral 9 (bytes " [" ++ quoted "a" ++ bytes ", 1.5, ttrue]")
  <> Return (mkJSONValue "array" (Slice [])).
Proof.
  apply (parse_open_container_without_brace_never_returns integerLiteral 9
           (bytes " ") "[" (quoted "a" ++ bytes ", 1.5, ttrue]")).
  - reflexivity.
  - left. reflexivity.
  - reflexivity.
Defined.

(** ** What a returned value can hold *)

Lemma lexTokens_read p :
  currentToken p ∈ lexTokens ->
  currentToken (snd (readNextToken p)) ∈ lexTokens.
Proof.
  intros Hp. destruct (readNextToken_refines p) as (_ & _ & ->).
  destruct (lexSpec_token (Buffer.String (input p)) (currentToken p))
    as [-> | H]; assumption.
Qed.

Lemma lexTokens_default tok :
  tok ∈ lexTokens -> entersDefault tok = true -> tok ∈ defaultTokens.
Proof.
  unfold lexTokens, defaultTokens. rewrite !elem_of_cons, !elem_of_nil.
  intros [-> | [-> | [-> | [-> | [-> | [-> | [-> | [-> | [-> | [-> | []]]]]]]]]]];
    intros H; try discriminate H; tauto.
Qed.

Lemma parseValue_producible {float64 : Type}
    (ParseFloat : string -> option float64) fuel :
  keeps (fun p => currentToken p ∈ lexTokens) (producible ParseFloat)
    (parseValue ParseFloat fuel).
Proof.
  apply (parseValue_keeps ParseFloat _ _
           (fun m => (forall k v, m !! k = Some v -> k ∈ lexTokens)
                     /\ (forall k v, m !! k = Some v -> producible ParseFloat v))
           (fun l => forall v, v ∈ l -> producible ParseFloat v)).
  - apply lexTokens_read.
  - intros p _ H. apply producible_literal. exact H.
  - intros p Hp H. apply producible_default.
    apply lexTokens_default; assumption.
  - split; intros k v H; rewrite lookup_empty in H; discriminate.
  - intros p m v Hp [Hkeys Hvals] Hv.
    split; intros k v' H; apply lookup_insert_Some in H as [[<- <-] | [_ H]];
      eauto.
  - intros p m _ _ [Hkeys Hvals]. apply producible_object; assumption.
  - intros v H. apply elem_of_nil in H as [].
  - intros l v Hl Hv v' H. apply elem_of_app in H as [H | H]; [auto|].
    apply list_elem_of_singleton in H as ->. exact Hv.
  - intros p l _ _ Hl. apply producible_array. exact Hl.
Qed.

(** X18.  Whatever the input, a value that [parseValue] returns is built
    from the tokens of the lexer alone: its leaves are the three literals
    and the outcome of the default case on the empty string or on one of
    [}], []], [:] and [,]; the keys of its objects are tokens of the lexer.
    No key and no leaf carries the text of a quoted string or the digits of
    a number of the input. *)
Theorem parse_returns_producible
    {float64 : Type} (ParseFloat : string -> option float64)
    (fuel : nat) (jsonData : list byte) (v : @JSONValue float64) :
  parse ParseFloat fuel jsonData = Return v -> producible ParseFloat v.
Proof.
  intros Hparse.
  destruct (parseValue_producible ParseFloat fuel (NewJSONParser jsonData))
    as [_ Hv].
  - unfold lexTokens. cbn [NewJSONParser currentToken].
    rewrite !elem_of_cons. tauto.
  - apply Hv. exact Hparse.
Qed.

Lemma parse_returns_producible_witness :
  producible integerLiteral
    (mkJSONValue "array" (Slice [mkJSONValue "string" (Str EmptyString)])).
Proof.
  apply (parse_returns_producible integerLiteral 4 (bytes "[true,1}")).
  reflexivity.
Defined.

Lemma parseValue_numberFree {float64 : Type}
    (ParseFloat : string -> option float64) fuel :
  (forall tok, tok ∈ defaultTokens -> ParseFloat tok = None) ->
  keeps (fun p => currentToken p ∈ lexTokens) numberFree
    (parseValue ParseFloat fuel).
Proof.
  intros Hnone.
  apply (parseValue_keeps ParseFloat _ _
           (fun m => forall k v, m !! k = Some v -> numberFree v)
           (fun l => forall v, v ∈ l -> numberFree v)).
  - apply lexTokens_read.
  - intros p _ _. apply numberFree_nil.
  - intros p Hp H. unfold numberOrString.
    rewrite Hnone by (apply lexTokens_default; assumption).
    apply numberFree_string.
  - intros k v H. rewrite lookup_empty in H. discriminate.
  - intros p m v Hp Hvals Hv k v' H.
    apply lookup_insert_Some in H as [[<- <-] | [_ H]]; eauto.
  - intros p m _ _ Hvals. apply numberFree_object. exact Hvals.
  - intros v H. apply elem_of_nil in H as [].
  - intros l v Hl Hv v' H. apply elem_of_app in H as [H | H]; [auto|].
    apply list_elem_of_singleton in H as ->. exact Hv.
  - intros p l _ _ Hl. apply numberFree_array. exact Hl.
Qed.

(** X19.  The parser never returns a number.  The conversion is only ever
    applied to the empty string and to [}], []], [:] and [,]; when it
    rejects these five, as [strconv.ParseFloat] does, no value returned by
    [parseValue] holds a number at any depth, whatever the input. *)
Theorem parse_never_returns_number
    {float64 : Type} (ParseFloat : string -> option float64)
    (fuel : nat) (jsonData : list byte) (v : @JSONValue float64) :
  (forall tok, tok ∈ defaultTokens -> ParseFloat tok = None) ->
  parse ParseFloat fuel jsonData = Return v ->
  numberFree v.
Proof.
  intros Hnone Hparse.
  destruct (parseValue_numberFree ParseFloat fuel Hnone
              (NewJSONParser jsonData)) as [_ Hv].
  - unfold lexTokens. cbn [NewJSONParser currentToken].
    rewrite !elem_of_cons. tauto.
  - apply Hv. exact Hparse.
Qed.

Lemma parse_never_returns_number_witness :
  numberFree (mkJSONValue "string" (@Str Z EmptyString)).
Proof.
  apply (parse_never_returns_number integerLiteral 1 (bytes "30")).
  - unfold defaultTokens. intros tok H.
    rewrite !elem_of_cons, elem_of_nil in H.
    destruct H as [-> | [-> | [-> | [-> | [-> | []]]]]]; reflexivity.
  - reflexivity.
Defined.

(** ** Inputs that end early *)

(** X20.  On an input of whitespace alone, the empty input included,
    [parseValue] returns what the default case makes of the empty token of
    a fresh parser: no error is raised for a document that holds no
    value. *)
Theorem parse_blank_input
    {float64 : Type} (ParseFloat : string -> option float64)
    (n : nat) (ws : list byte) :
  forallb isWhitespace ws = true ->
  parse ParseFloat (S n) ws = Return (numberOrString ParseFloat EmptyString).
Proof.
  intros Hws. unfold parse. rewrite parseValue_S.
  destruct (readNextToken_end_run (NewJSONParser ws) Hws)
    as (p1 & -> & Htok & _).
  rewrite valueSwitch_default by (rewrite Htok; reflexivity).
  rewrite Htok. reflexivity.
Qed.

Lemma parse_blank_input_witness :
  parse integerLiteral 1 (bytes "  ")
  = Return (numberOrString integerLiteral EmptyString).
Proof. apply (parse_blank_input integerLiteral 0 (bytes "  ")). reflexivity. Defined.

(** X21.  An opening brace followed, after any whitespace, by a closing
    brace is parsed as the empty object, and whatever follows the closing
    brace is left unread and unchecked. *)
Theorem parse_empty_object
    {float64 : Type} (ParseFloat : string -> option float64)
    (n : nat) (ws1 ws2 rest : list byte) :
  forallb isWhitespace ws1 = true -> forallb isWhitespace ws2 = true ->
  exists p',
    parseValue ParseFloat (S (S n))
      (NewJSONParser (ws1 ++ "{"%char :: ws2 ++ "}"%char :: rest))
    = (Return (mkJSONValue "object" (Map ∅)), p')
    /\ Buffer.String (input p') = rest.
Proof.
  intros Hws1 Hws2. rewrite parseValue_S.
  destruct (readNextToken_structural_run
              (NewJSONParser (ws1 ++ "{"%char :: ws2 ++ "}"%char :: rest))
              ws1 "{" (ws2 ++ "}"%char :: rest) Hws1 eq_refl eq_refl)
    as (p1 & -> & Htok1 & Hin1).
  rewrite valueSwitch_brace by exact Htok1. rewrite parseObject_run.
  destruct (readNextToken_structural_run p1 ws2 "}" rest Hws2 eq_refl Hin1)
    as (p2 & -> & Htok2 & Hin2).
  exists p2. simpl objectLoop.
  unfold mbind at 1, Parse_bind at 1, bind at 1, getToken at 1.
  rewrite Htok2. split; [reflexivity | exact Hin2].
Qed.

Lemma parse_empty_object_witness :
  exists p',
    parseValue integerLiteral 2 (NewJSONParser (bytes " { } x"))
    = (Return (mkJSONValue "object" (Map ∅)), p')
    /\ Buffer.String (input p') = bytes " x".
Proof.
  apply (parse_empty_object integerLiteral 0 (bytes " ") (bytes " ")
           (bytes " x")); reflexivity.
Defined.

(** X22.  An object that is opened and never continued, with nothing but
    whitespace after the opening brace, ends in the panic of line 129:
    [readNextToken] fails twice, and the stale token [{] is taken first for
    a key and then for the separator that it is not. *)
Theorem parse_unclosed_object_panics
    {float64 : Type} (ParseFloat : string -> option float64)
    (n : nat) (ws1 ws2 : list byte) :
  forallb isWhitespace ws1 = true -> forallb isWhitespace ws2 = true ->
  parse ParseFloat (S (S n)) (ws1 ++ "{"%char :: ws2)
  = Panic (PanicString "Expected ':'").
Proof.
  intros Hws1 Hws2. unfold parse. rewrite parseValue_S.
  destruct (readNextToken_structural_run
              (NewJSONParser (ws1 ++ "{"%char :: ws2))
              ws1 "{" ws2 Hws1 eq_refl eq_refl)
    as (p1 & -> & Htok1 & Hin1).
  rewrite valueSwitch_brace by exact Htok1. rewrite parseObject_run.
  destruct (readNextToken_end_run p1) as (p2 & -> & Htok2 & Hin2);
    [rewrite Hin1; exact Hws2|].
  rewrite objectLoop_S by (rewrite Htok2, Htok1; discriminate).
  unfold mbind at 1, Parse_bind at 1, bind at 1.
  destruct (readNextToken_end_run p2) as (p3 & -> & Htok3 & _);
    [rewrite Hin2; reflexivity|].
  unfold mbind at 1, Parse_bind at 1, bind at 1, getToken at 1.
  rewrite Htok3, Htok2, Htok1. reflexivity.
Qed.

Lemma parse_unclosed_object_panics_witness :
  parse integerLiteral 2 (bytes " { ") = Panic (PanicString "Expected ':'").
Proof.
  apply (parse_unclosed_object_panics integerLiteral 0 (bytes " ") (bytes " "));
    reflexivity.
Defined.

(** With the input exhausted and [[] as the stale token, [parseValue] calls
    [parseArray], whose loop calls [parseValue] again in the same state. *)
Lemma parseValue_stale_bracket {float64 : Type}
    (ParseFloat : string -> option float64) fuel : forall p,
  Buffer.String (input p) = [] -> currentToken p = "[" ->
  fst (parseValue ParseFloat fuel p) = OutOfFuel.
Proof.
  induction fuel as [|fuel IH]; intros p Hin Htok; [reflexivity|].
  assert (Hlen : Buffer.Len (input p) = 0)
    by (rewrite Len_String, Hin; reflexivity).
  rewrite parseValue_S, readNextToken_exhausted by exact Hlen.
  rewrite valueSwitch_array by exact Htok.
  rewrite parseArray_run, readNextToken_exhausted by exact Hlen.
  destruct fuel as [|m]; [reflexivity|].
  rewrite arrayLoop_S by (rewrite Htok; discriminate).
  unfold mbind at 1, Parse_bind at 1, bind at 1.
  specialize (IH p Hin Htok).
  destruct (parseValue ParseFloat (S m) p) as [[v | e |] p']; cbn [fst] in IH;
    try discriminate IH.
  reflexivity.
Qed.

(** X23.  An array that is opened and never continued, with nothing but
    whitespace after the opening bracket, never returns: [parseValue] and
    [parseArray] call each other on the stale token [[] without reading
    anything, whatever the fuel. *)
Theorem parse_unclosed_array_never_returns
    {float64 : Type} (ParseFloat : string -> option float64)
    (fuel : nat) (ws1 ws2 : list byte) :
  forallb isWhitespace ws1 = true -> forallb isWhitespace ws2 = true ->
  parse ParseFloat fuel (ws1 ++ "["%char :: ws2) = OutOfFuel.
Proof.
  intros Hws1 Hws2. destruct fuel as [|n]; [reflexivity|].
  unfold parse. rewrite parseValue_S.
  destruct (readNextToken_structural_run
              (NewJSONParser (ws1 ++ "["%char :: ws2))
              ws1 "[" ws2 Hws1 eq_refl eq_refl)
    as (p1 & -> & Htok1 & Hin1).
  rewrite valueSwitch_array by exact Htok1. rewrite parseArray_run.
  destruct (readNextToken_end_run p1) as (p2 & -> & Htok2 & Hin2);
    [rewrite Hin1; exact Hws2|].
  destruct n as [|m]; [reflexivity|].
  rewrite arrayLoop_S by (rewrite Htok2, Htok1; discriminate).
  unfold mbind at 1, Parse_bind at 1, bind at 1.
  pose proof (parseValue_stale_bracket ParseFloat (S m) p2 Hin2
                (eq_trans Htok2 Htok1)) as Hloop.
  destruct (parseValue ParseFloat (S m) p2) as [[v | e |] p'];
    cbn [fst] in Hloop; try discriminate Hloop.
  reflexivity.
Qed.

Lemma parse_unclosed_array_never_returns_witness :
  parse integerLiteral 7 (bytes "[ ") = OutOfFuel.
Proof.
  apply (parse_unclosed_array_never_returns integerLiteral 7 [] (bytes " "));
    reflexivity.
Defined.

(** ** Objects with members *)

Lemma afterQuote_closed s rest :
  forallb notQuote s = true -> afterQuote (s ++ quote :: rest) = Some rest.
Proof.
  induction s as [|x s IH]; [reflexivity|]. simpl. unfold notQuote at 1.
  intros H. apply andb_prop in H as [Hx H]. apply negb_true_iff in Hx.
  rewrite Hx. apply IH. exact H.
Qed.

(** X24.  No object with a quoted key is parsed: [parseObject] asks the
    lexer for the key, and the lexer panics at the closing quote of the key.
    Every JSON object that is not empty is such an input. *)
Theorem parse_object_with_quoted_key_panics
    {float64 : Type} (ParseFloat : string -> option float64)
    (n : nat) (ws1 ws2 key rest : list byte) :
  forallb isWhitespace ws1 = true -> forallb isWhitespace ws2 = true ->
  forallb notQuote key = true ->
  parse ParseFloat (S (S n))
    (ws1 ++ "{"%char :: ws2 ++ quote :: key ++ quote :: rest)
  = Panic SliceBoundsOutOfRange.
Proof.
  intros Hws1 Hws2 Hkey. unfold parse. rewrite parseValue_S.
  destruct (readNextToken_structural_run
              (NewJSONParser
                 (ws1 ++ "{"%char :: ws2 ++ quote :: key ++ quote :: rest))
              ws1 "{" (ws2 ++ quote :: key ++ quote :: rest)
              Hws1 eq_refl eq_refl)
    as (p1 & -> & Htok1 & Hin1).
  rewrite valueSwitch_brace by exact Htok1. rewrite parseObject_run.
  destruct (readNextToken_refines p1) as (Hr & _ & _).
  rewrite Hin1 in Hr. unfold lexSpec in Hr.
  rewrite skipWs_app in Hr by exact Hws2. simpl in Hr.
  rewrite (afterQuote_closed key rest Hkey) in Hr.
  destruct (readNextToken p1) as [r p2]. cbn [fst] in Hr. subst r.
  reflexivity.
Qed.

Lemma parse_object_with_quoted_key_panics_witness :
  parse integerLiteral 2 (bytes "{ " ++ quoted "a" ++ bytes ": 1}")
  = Panic SliceBoundsOutOfRange.
Proof.
  apply (parse_object_with_quoted_key_panics integerLiteral 0 [] (bytes " ")
           (bytes "a") (bytes ": 1}")); reflexivity.
Defined.

(** X25.  [main] does not print: the parse of its document panics at the
    closing quote of the first key, [name], before any value is built. *)
Theorem main_panics
    {float64 : Type} (ParseFloat : string -> option float64) (n : nat) :
  main ParseFloat (S (S n)) = Panic SliceBoundsOutOfRange.
Proof. vm_compute. reflexivity. Qed.
